(** * A task-list manager: shallow embedding of [script.js],
      [js/script.js] and [js/formValidation.js]

    The page keeps an array of task objects in a closure variable, mirrors
    it into [localStorage] under the key ["tasks"] after every mutation, and
    drives one form whose [submit] listener is swapped between [addTask] and
    [updateTask].  The repository holds the script twice: [script.js]
    validates the title inside the handlers, [js/script.js] leaves the
    validation to [js/formValidation.js] and tests the button's [disabled]
    flag.  Functions that read the same in both are embedded once; the
    handlers that differ live in the modules [Script] and [Split].

    Conventions of the embedding:
    - a JavaScript string is the list of its UTF-16 code units ([N]);
      [String.prototype.length] is the length of that list;
    - the [id] of a task is an integer ([Z]); the program obtains it from
      [Date.now()], a millisecond count far below 2^53, so the decimal
      rendering [Number::toString], [parseInt] and the JSON number syntax
      are modelled on exact integers, without rounding to a double.  The
      model is the program on the integers a double holds exactly
      ([safe_integer]), which every identifier made by [addTask] is; an
      identifier outside that range can only come from a hand-written
      stored string;
    - closure variables and the DOM properties the handlers read or write
      are the fields of one record [State]; a handler is a function
      [State -> State]; a form field holds the string last assigned to it,
      as the title field does for a string without line breaks
      ([single_line], all that a text input can hold) and the description
      field for a string without carriage returns ([no_carriage_return],
      all that a textarea gives back);
    - the clock and the user are inputs: [Date.now()] is an argument of the
      submission, the answer to [confirm] an argument of the click;
    - [localStorage.setItem] succeeds; [JSON.parse] may throw, so start-up
      returns an [Outcome]. *)

From Stdlib Require Import ZArith NArith Ascii String.
From stdpp Require Import base numbers option list.

Local Open Scope N_scope.

(** ** Strings *)

Definition jsstr := list N.

(** An ASCII literal as a JavaScript string. *)
Definition lit (s : string) : jsstr :=
  map N_of_ascii (list_ascii_of_string s).

(** ECMAScript [WhiteSpace] and [LineTerminator] code points, the set
    stripped by [String.prototype.trim] and skipped by [parseInt]. *)
Definition isWhiteSpace (c : N) : bool :=
  (c =? 9) || (c =? 10) || (c =? 11) || (c =? 12) || (c =? 13) ||
  (c =? 32) || (c =? 160) || (c =? 5760) ||
  ((8192 <=? c) && (c <=? 8202)) ||
  (c =? 8232) || (c =? 8233) || (c =? 8239) || (c =? 8287) ||
  (c =? 12288) || (c =? 65279).

Fixpoint trimStart (s : jsstr) : jsstr :=
  match s with
  | [] => []
  | c :: r => if isWhiteSpace c then trimStart r else s
  end.

Definition trimEnd (s : jsstr) : jsstr := rev (trimStart (rev s)).

(** [String.prototype.trim]. *)
Definition trim (s : jsstr) : jsstr := trimEnd (trimStart s).

(** ** Numbers *)

(** The numbers that flow through the handlers as task identifiers:
    an integer, or the [NaN] that [parseInt] returns on a string without
    a leading numeral. *)
Inductive number :=
| NaN
| Int (z : Z).

(** [task.id === n] for an integer [task.id]: [NaN] equals nothing. *)
Definition strict_eq (i : Z) (n : number) : bool :=
  match n with
  | NaN => false
  | Int z => Z.eqb i z
  end.

(** Decimal digits of a natural number, most significant first.  The fuel
    is the binary size, which bounds the number of decimal digits. *)
Fixpoint digits_aux (fuel : nat) (n : N) (acc : jsstr) : jsstr :=
  match fuel with
  | O => acc
  | S f =>
      let acc' := (48 + n mod 10) :: acc in
      if n / 10 =? 0 then acc' else digits_aux f (n / 10) acc'
  end.

Definition digits (n : N) : jsstr := digits_aux (S (N.size_nat n)) n [].

(** The decimal numeral of an integer: sign and digits.  This is
    [Number::toString] (radix 10) on every integer below 10^21 in
    magnitude, in particular on every [safe_integer]; from 10^21 on
    JavaScript writes an exponent, which this function does not. *)
Definition Number_toString (z : Z) : jsstr :=
  match z with
  | Zneg p => 45 :: digits (Npos p)
  | _ => digits (Z.to_N z)
  end.

(** [String(n)]. *)
Definition String_of_number (n : number) : jsstr :=
  match n with
  | NaN => lit "NaN"
  | Int z => Number_toString z
  end.

Definition isDigit (c : N) : bool := (48 <=? c) && (c <=? 57).

Definition hexval (c : N) : option N :=
  if (48 <=? c) && (c <=? 57) then Some (c - 48)
  else if (97 <=? c) && (c <=? 102) then Some (c - 87)
  else if (65 <=? c) && (c <=? 70) then Some (c - 55)
  else None.

(** The longest prefix of radix-[r] digits, accumulated left to right;
    [None] when the prefix is empty. *)
Fixpoint radix_prefix (r : N) (s : jsstr) (acc : option N) : option N :=
  match s with
  | [] => acc
  | c :: rest =>
      match hexval c with
      | Some d =>
          if d <? r
          then radix_prefix r rest (Some (default 0 acc * r + d))
          else acc
      | None => acc
      end
  end.

(** [parseInt(s)] with the radix left undefined: leading white space is
    skipped, a sign is read, a ["0x"]/["0X"] prefix selects radix 16,
    and the longest digit prefix is the value; no digit gives [NaN]. *)
Definition parseInt (s : jsstr) : number :=
  let s1 := trimStart s in
  let neg := match s1 with c :: _ => c =? 45 | [] => false end in
  let s2 :=
    match s1 with
    | c :: r => if (c =? 45) || (c =? 43) then r else s1
    | [] => s1
    end in
  let hex :=
    match s2 with
    | a :: b :: _ => (a =? 48) && ((b =? 120) || (b =? 88))
    | _ => false
    end in
  let radix := if hex then 16 else 10 in
  let s3 := if hex then drop 2 s2 else s2 in
  match radix_prefix radix s3 None with
  | None => NaN
  | Some m => Int (if neg then - Z.of_N m else Z.of_N m)
  end.

(** [parseInt(undefined)] reads the string ["undefined"]. *)
Definition parseInt_opt (o : option jsstr) : number :=
  match o with
  | Some s => parseInt s
  | None => parseInt (lit "undefined")
  end.

(** ** Tasks *)

Record Task := {
  id : Z;
  title : jsstr;
  description : jsstr;
  completed : bool
}.

(** ** JSON *)

(** Values produced by [JSON.parse].  A number literal is kept exactly, as
    mantissa and decimal exponent ([JNum m e] is [m * 10^e]); an object is
    the list of its members in source order. *)
#[warnings="-register-all"]
Inductive json :=
| JNull
| JBool (b : bool)
| JNum (m e : Z)
| JStr (s : jsstr)
| JArr (l : list json)
| JObj (l : list (jsstr * json)).

(** *** [JSON.stringify] of the task array *)

Definition is_high (c : N) : bool := (55296 <=? c) && (c <=? 56319).
Definition is_low (c : N) : bool := (56320 <=? c) && (c <=? 57343).

Definition hexdigit (d : N) : N := if d <? 10 then 48 + d else 87 + d.

(** [UnicodeEscape]: a backslash, [u] and four lower-case hex digits. *)
Definition unicode_escape (c : N) : jsstr :=
  [92; 117; hexdigit (c / 4096); hexdigit ((c / 256) mod 16);
   hexdigit ((c / 16) mod 16); hexdigit (c mod 16)].

(** One code unit that is not the first half of a surrogate pair. *)
Definition quote_unit (c : N) : jsstr :=
  if c =? 8 then [92; 98]
  else if c =? 9 then [92; 116]
  else if c =? 10 then [92; 110]
  else if c =? 12 then [92; 102]
  else if c =? 13 then [92; 114]
  else if c =? 34 then [92; 34]
  else if c =? 92 then [92; 92]
  else if (c <? 32) || is_low c then unicode_escape c
  else [c].

(** The body of [QuoteJSONString]: the string is read by code points, a
    well-formed surrogate pair is copied, a lone surrogate is escaped. *)
Fixpoint quote_body (s : jsstr) : jsstr :=
  match s with
  | [] => []
  | c :: r =>
      if is_high c then
        match r with
        | d :: r' =>
            if is_low d then c :: d :: quote_body r'
            else unicode_escape c ++ quote_body r
        | [] => unicode_escape c
        end
      else quote_unit c ++ quote_body r
  end.

Definition QuoteJSONString (s : jsstr) : jsstr :=
  34 :: quote_body s ++ [34].

(** [SerializeJSONObject] of a task: its four own properties in the
    order in which [addTask] creates them, which every later update
    keeps.  (An object read from a hand-written stored string keeps the
    member order of that string instead; the record [Task] has no order,
    and the list read back from either text is the same.) *)
Definition stringify_task (t : Task) : jsstr :=
  [123] ++ QuoteJSONString (lit "id") ++ [58] ++ Number_toString (id t) ++
  [44] ++ QuoteJSONString (lit "title") ++ [58] ++ QuoteJSONString (title t) ++
  [44] ++ QuoteJSONString (lit "description") ++ [58] ++
          QuoteJSONString (description t) ++
  [44] ++ QuoteJSONString (lit "completed") ++ [58] ++
          (if completed t then lit "true" else lit "false") ++
  [125].

(** Elements of [SerializeJSONArray], separated by commas. *)
Fixpoint stringify_elements (ts : list Task) : jsstr :=
  match ts with
  | [] => []
  | [t] => stringify_task t
  | t :: r => stringify_task t ++ [44] ++ stringify_elements r
  end.

(** [JSON.stringify(tasks)]. *)
Definition JSON_stringify (ts : list Task) : jsstr :=
  [91] ++ stringify_elements ts ++ [93].

(** *** [JSON.parse] *)

(** JSON white space: tab, line feed, carriage return, space. *)
Definition is_json_ws (c : N) : bool :=
  (c =? 9) || (c =? 10) || (c =? 13) || (c =? 32).

Fixpoint skip_ws (s : jsstr) : jsstr :=
  match s with
  | [] => []
  | c :: r => if is_json_ws c then skip_ws r else s
  end.

(** [drop_literal p s] is the rest of [s] after the literal [p]. *)
Fixpoint drop_literal (p s : jsstr) : option jsstr :=
  match p, s with
  | [], _ => Some s
  | a :: p', b :: s' => if a =? b then drop_literal p' s' else None
  | _ :: _, [] => None
  end.

Definition hex4 (a b c d : N) : option N :=
  match hexval a, hexval b, hexval c, hexval d with
  | Some x, Some y, Some z, Some w => Some (4096 * x + 256 * y + 16 * z + w)
  | _, _, _, _ => None
  end.

(** The characters of a string literal after its opening quote, up to and
    including the closing quote; [acc] holds the decoded code units, last
    first. *)
Fixpoint parse_string (s : jsstr) (acc : jsstr) : option (jsstr * jsstr) :=
  match s with
  | [] => None
  | c :: r =>
      if c =? 34 then Some (rev acc, r)
      else if c =? 92 then
        match r with
        | [] => None
        | e :: r1 =>
            if e =? 34 then parse_string r1 (34 :: acc)
            else if e =? 92 then parse_string r1 (92 :: acc)
            else if e =? 47 then parse_string r1 (47 :: acc)
            else if e =? 98 then parse_string r1 (8 :: acc)
            else if e =? 102 then parse_string r1 (12 :: acc)
            else if e =? 110 then parse_string r1 (10 :: acc)
            else if e =? 114 then parse_string r1 (13 :: acc)
            else if e =? 116 then parse_string r1 (9 :: acc)
            else if e =? 117 then
              match r1 with
              | h1 :: h2 :: h3 :: h4 :: r2 =>
                  match hex4 h1 h2 h3 h4 with
                  | Some u => parse_string r2 (u :: acc)
                  | None => None
                  end
              | _ => None
              end
            else None
        end
      else if c <? 32 then None
      else parse_string r (c :: acc)
  end.

(** A run of decimal digits: the accumulated value, the number of digits
    read, and the rest. *)
Fixpoint take_digits (s : jsstr) (acc : N) (cnt : N) : N * N * jsstr :=
  match s with
  | [] => (acc, cnt, [])
  | c :: r =>
      if isDigit c then take_digits r (acc * 10 + (c - 48)) (cnt + 1)
      else (acc, cnt, s)
  end.

(** The integer part: a single [0], or a non-zero digit and a digit run. *)
Definition parse_int_part (s : jsstr) : option (N * jsstr) :=
  match s with
  | [] => None
  | c :: r =>
      if c =? 48 then Some (0, r)
      else if isDigit c then
        let '(m, _, r') := take_digits r (c - 48) 1 in Some (m, r')
      else None
  end.

(** The optional fraction: its digits extend the mantissa, their count
    is returned. *)
Definition parse_frac_part (m : N) (s : jsstr) : option (N * N * jsstr) :=
  match s with
  | c :: r =>
      if c =? 46 then
        let '(m', k, r') := take_digits r m 0 in
        if k =? 0 then None else Some (m', k, r')
      else Some (m, 0, s)
  | [] => Some (m, 0, s)
  end.

(** The optional exponent. *)
Definition parse_exp_part (s : jsstr) : option (Z * jsstr) :=
  match s with
  | c :: r =>
      if (c =? 101) || (c =? 69) then
        let neg := match r with d :: _ => d =? 45 | [] => false end in
        let r1 :=
          match r with
          | d :: r' => if (d =? 45) || (d =? 43) then r' else r
          | [] => r
          end in
        let '(x, k, r2) := take_digits r1 0 0 in
        if k =? 0 then None
        else Some ((if neg then - Z.of_N x else Z.of_N x)%Z, r2)
      else Some (0%Z, s)
  | [] => Some (0%Z, s)
  end.

Definition parse_number (s : jsstr) : option (json * jsstr) :=
  let neg := match s with c :: _ => c =? 45 | [] => false end in
  let s1 := match s with c :: r => if c =? 45 then r else s | [] => s end in
  '(i, s2) ← parse_int_part s1;
  '(m, k, s3) ← parse_frac_part i s2;
  '(x, s4) ← parse_exp_part s3;
  Some (JNum (if neg then - Z.of_N m else Z.of_N m) (x - Z.of_N k), s4).

Definition parse_literal (p : jsstr) (v : json) (s : jsstr)
  : option (json * jsstr) :=
  r ← drop_literal p s; Some (v, r).

(** Recursive descent over [JSONValue], [JSONElementList] and
    [JSONMemberList].  Every level of recursion spends one unit of fuel. *)
Fixpoint parse_value (fuel : nat) (s : jsstr) {struct fuel}
  : option (json * jsstr) :=
  match fuel with
  | O => None
  | S f =>
      match skip_ws s with
      | [] => None
      | c :: r =>
          if c =? 91 then
            match skip_ws r with
            | [] => None
            | c' :: r' =>
                if c' =? 93 then Some (JArr [], r')
                else parse_elements f r []
            end
          else if c =? 123 then
            match skip_ws r with
            | [] => None
            | c' :: r' =>
                if c' =? 125 then Some (JObj [], r')
                else parse_members f r []
            end
          else if c =? 34 then
            '(str, r') ← parse_string r []; Some (JStr str, r')
          else if c =? 116 then parse_literal (lit "true") (JBool true) (c :: r)
          else if c =? 102 then
            parse_literal (lit "false") (JBool false) (c :: r)
          else if c =? 110 then parse_literal (lit "null") JNull (c :: r)
          else parse_number (c :: r)
      end
  end
with parse_elements (fuel : nat) (s : jsstr) (acc : list json) {struct fuel}
  : option (json * jsstr) :=
  match fuel with
  | O => None
  | S f =>
      match parse_value f s with
      | None => None
      | Some (v, r) =>
          match skip_ws r with
          | [] => None
          | c :: r' =>
              if c =? 44 then parse_elements f r' (v :: acc)
              else if c =? 93 then Some (JArr (rev (v :: acc)), r')
              else None
          end
      end
  end
with parse_members (fuel : nat) (s : jsstr) (acc : list (jsstr * json))
  {struct fuel} : option (json * jsstr) :=
  match fuel with
  | O => None
  | S f =>
      match skip_ws s with
      | [] => None
      | c :: r =>
          if c =? 34 then
            match parse_string r [] with
            | None => None
            | Some (k, r1) =>
                match skip_ws r1 with
                | [] => None
                | c1 :: r2 =>
                    if c1 =? 58 then
                      match parse_value f r2 with
                      | None => None
                      | Some (v, r3) =>
                          match skip_ws r3 with
                          | [] => None
                          | c3 :: r4 =>
                              if c3 =? 44
                              then parse_members f r4 ((k, v) :: acc)
                              else if c3 =? 125
                              then Some (JObj (rev ((k, v) :: acc)), r4)
                              else None
                          end
                      end
                    else None
                end
            end
          else None
      end
  end.

(** [JSON.parse(text)]: one value surrounded by white space; [None] is the
    [SyntaxError].  Twice the length of the text is enough fuel, a level of
    recursion being entered at most twice per code unit. *)
Definition JSON_parse (s : jsstr) : option json :=
  match parse_value (2 * length s + 2) s with
  | Some (v, r) => match skip_ws r with [] => Some v | _ :: _ => None end
  | None => None
  end.

(** *** From JSON values to task records *)

(** [o[k]] on a parsed object: of several members with one key the last
    one defines the property. *)
Fixpoint obj_get (k : jsstr) (l : list (jsstr * json)) : option json :=
  match l with
  | [] => None
  | (k', v) :: r =>
      match obj_get k r with
      | Some v' => Some v'
      | None => if decide (k' = k) then Some v else None
      end
  end.

(** The integer a number literal denotes, when it denotes one.  The value
    is exact; [JSON.parse] yields the nearest double, which is the same
    number whenever the literal denotes a [safe_integer]. *)
Definition integer_value (m e : Z) : option Z :=
  if (0 <=? e)%Z then Some (m * 10 ^ e)%Z
  else
    let p := (10 ^ (- e))%Z in
    if (m mod p =? 0)%Z then Some (m / p)%Z else None.

Definition task_keys : list jsstr :=
  [lit "id"; lit "title"; lit "description"; lit "completed"].

(** A parsed object is a task record when it has the four properties of
    §3 with their types, and no other. *)
Definition task_of_json (v : json) : option Task :=
  match v with
  | JObj l =>
      if forallb (λ kv, bool_decide (kv.1 ∈ task_keys)) l then
        match obj_get (lit "id") l, obj_get (lit "title") l,
              obj_get (lit "description") l, obj_get (lit "completed") l with
        | Some (JNum m e), Some (JStr t), Some (JStr d), Some (JBool c) =>
            i ← integer_value m e;
            Some {| id := i; title := t; description := d; completed := c |}
        | _, _, _, _ => None
        end
      else None
  | _ => None
  end.

Definition tasks_of_json (v : json) : option (list Task) :=
  match v with
  | JArr l => mapM task_of_json l
  | _ => None
  end.

Definition json_of_task (t : Task) : json :=
  JObj [(lit "id", JNum (id t) 0); (lit "title", JStr (title t));
        (lit "description", JStr (description t));
        (lit "completed", JBool (completed t))].

(** ** The page *)

(** The two functions the form's [submit] event can be bound to. *)
Inductive Listener :=
| AddTask
| UpdateTask.

#[global] Instance Listener_eq_dec : EqDecision Listener.
Proof. solve_decision. Defined.

(** A row of the table body: a task row carries the task it was drawn
    from (its [dataset.id] is [String(task.id)]); the other row is the
    "no tasks" message. *)
Inductive Row :=
| TaskRow (t : Task)
| NoTasksMessage.

Definition row_dataset_id (r : Row) : option jsstr :=
  match r with
  | TaskRow t => Some (Number_toString (id t))
  | NoTasksMessage => None
  end.

(** Closure variables ([tasks], [isTitleInputDirty]), the DOM properties
    the scripts touch, and the storage slot ["tasks"]. *)
Record State := {
  tasks : list Task;
  isTitleInputDirty : bool;
  taskTitleInput_value : jsstr;
  taskDescriptionInput_value : jsstr;
  addTaskButton_textContent : jsstr;
  addTaskButton_disabled : bool;
  addTaskButton_editingId : option jsstr;
  titleErrorLabel_display : jsstr;
  taskForm_submit : list Listener;
  tasksTableBody : list Row;
  tasksTable_display : jsstr;
  localStorage_tasks : option jsstr
}.

Definition set_tasks (v : list Task) (st : State) : State :=
  {| tasks := v; isTitleInputDirty := isTitleInputDirty st;
     taskTitleInput_value := taskTitleInput_value st;
     taskDescriptionInput_value := taskDescriptionInput_value st;
     addTaskButton_textContent := addTaskButton_textContent st;
     addTaskButton_disabled := addTaskButton_disabled st;
     addTaskButton_editingId := addTaskButton_editingId st;
     titleErrorLabel_display := titleErrorLabel_display st;
     taskForm_submit := taskForm_submit st; tasksTableBody :=
     tasksTableBody st; tasksTable_display := tasksTable_display st;
     localStorage_tasks := localStorage_tasks st |}.

Definition set_isTitleInputDirty (v : bool) (st : State) : State :=
  {| tasks := tasks st; isTitleInputDirty := v; taskTitleInput_value :=
     taskTitleInput_value st; taskDescriptionInput_value :=
     taskDescriptionInput_value st; addTaskButton_textContent :=
     addTaskButton_textContent st; addTaskButton_disabled :=
     addTaskButton_disabled st; addTaskButton_editingId :=
     addTaskButton_editingId st; titleErrorLabel_display :=
     titleErrorLabel_display st; taskForm_submit := taskForm_submit st;
     tasksTableBody := tasksTableBody st; tasksTable_display :=
     tasksTable_display st; localStorage_tasks := localStorage_tasks st |}.

(** [taskTitleInput.value = v] and [taskDescriptionInput.value = v]: the
    field holds [v].  (A text input holds [v] as assigned when [v] is
    [single_line], a textarea when it is [no_carriage_return]; the
    strings the page itself reads from these fields are such.) *)
Definition set_taskTitleInput_value (v : jsstr) (st : State) : State :=
  {| tasks := tasks st; isTitleInputDirty := isTitleInputDirty st;
     taskTitleInput_value := v; taskDescriptionInput_value :=
     taskDescriptionInput_value st; addTaskButton_textContent :=
     addTaskButton_textContent st; addTaskButton_disabled :=
     addTaskButton_disabled st; addTaskButton_editingId :=
     addTaskButton_editingId st; titleErrorLabel_display :=
     titleErrorLabel_display st; taskForm_submit := taskForm_submit st;
     tasksTableBody := tasksTableBody st; tasksTable_display :=
     tasksTable_display st; localStorage_tasks := localStorage_tasks st |}.

Definition set_taskDescriptionInput_value (v : jsstr) (st : State) : State :=
  {| tasks := tasks st; isTitleInputDirty := isTitleInputDirty st;
     taskTitleInput_value := taskTitleInput_value st;
     taskDescriptionInput_value := v; addTaskButton_textContent :=
     addTaskButton_textContent st; addTaskButton_disabled :=
     addTaskButton_disabled st; addTaskButton_editingId :=
     addTaskButton_editingId st; titleErrorLabel_display :=
     titleErrorLabel_display st; taskForm_submit := taskForm_submit st;
     tasksTableBody := tasksTableBody st; tasksTable_display :=
     tasksTable_display st; localStorage_tasks := localStorage_tasks st |}.

Definition set_addTaskButton_textContent (v : jsstr) (st : State) : State :=
  {| tasks := tasks st; isTitleInputDirty := isTitleInputDirty st;
     taskTitleInput_value := taskTitleInput_value st;
     taskDescriptionInput_value := taskDescriptionInput_value st;
     addTaskButton_textContent := v; addTaskButton_disabled :=
     addTaskButton_disabled st; addTaskButton_editingId :=
     addTaskButton_editingId st; titleErrorLabel_display :=
     titleErrorLabel_display st; taskForm_submit := taskForm_submit st;
     tasksTableBody := tasksTableBody st; tasksTable_display :=
     tasksTable_display st; localStorage_tasks := localStorage_tasks st |}.

Definition set_addTaskButton_disabled (v : bool) (st : State) : State :=
  {| tasks := tasks st; isTitleInputDirty := isTitleInputDirty st;
     taskTitleInput_value := taskTitleInput_value st;
     taskDescriptionInput_value := taskDescriptionInput_value st;
     addTaskButton_textContent := addTaskButton_textContent st;
     addTaskButton_disabled := v; addTaskButton_editingId :=
     addTaskButton_editingId st; titleErrorLabel_display :=
     titleErrorLabel_display st; taskForm_submit := taskForm_submit st;
     tasksTableBody := tasksTableBody st; tasksTable_display :=
     tasksTable_display st; localStorage_tasks := localStorage_tasks st |}.

Definition set_addTaskButton_editingId (v : option jsstr) (st : State) : State :=
  {| tasks := tasks st; isTitleInputDirty := isTitleInputDirty st;
     taskTitleInput_value := taskTitleInput_value st;
     taskDescriptionInput_value := taskDescriptionInput_value st;
     addTaskButton_textContent := addTaskButton_textContent st;
     addTaskButton_disabled := addTaskButton_disabled st;
     addTaskButton_editingId := v; titleErrorLabel_display :=
     titleErrorLabel_display st; taskForm_submit := taskForm_submit st;
     tasksTableBody := tasksTableBody st; tasksTable_display :=
     tasksTable_display st; localStorage_tasks := localStorage_tasks st |}.

Definition set_titleErrorLabel_display (v : jsstr) (st : State) : State :=
  {| tasks := tasks st; isTitleInputDirty := isTitleInputDirty st;
     taskTitleInput_value := taskTitleInput_value st;
     taskDescriptionInput_value := taskDescriptionInput_value st;
     addTaskButton_textContent := addTaskButton_textContent st;
     addTaskButton_disabled := addTaskButton_disabled st;
     addTaskButton_editingId := addTaskButton_editingId st;
     titleErrorLabel_display := v; taskForm_submit := taskForm_submit
     st; tasksTableBody := tasksTableBody st; tasksTable_display :=
     tasksTable_display st; localStorage_tasks := localStorage_tasks st |}.

Definition set_taskForm_submit (v : list Listener) (st : State) : State :=
  {| tasks := tasks st; isTitleInputDirty := isTitleInputDirty st;
     taskTitleInput_value := taskTitleInput_value st;
     taskDescriptionInput_value := taskDescriptionInput_value st;
     addTaskButton_textContent := addTaskButton_textContent st;
     addTaskButton_disabled := addTaskButton_disabled st;
     addTaskButton_editingId := addTaskButton_editingId st;
     titleErrorLabel_display := titleErrorLabel_display st;
     taskForm_submit := v; tasksTableBody := tasksTableBody st;
     tasksTable_display := tasksTable_display st; localStorage_tasks :=
     localStorage_tasks st |}.

Definition set_tasksTableBody (v : list Row) (st : State) : State :=
  {| tasks := tasks st; isTitleInputDirty := isTitleInputDirty st;
     taskTitleInput_value := taskTitleInput_value st;
     taskDescriptionInput_value := taskDescriptionInput_value st;
     addTaskButton_textContent := addTaskButton_textContent st;
     addTaskButton_disabled := addTaskButton_disabled st;
     addTaskButton_editingId := addTaskButton_editingId st;
     titleErrorLabel_display := titleErrorLabel_display st;
     taskForm_submit := taskForm_submit st; tasksTableBody := v;
     tasksTable_display := tasksTable_display st; localStorage_tasks :=
     localStorage_tasks st |}.

Definition set_tasksTable_display (v : jsstr) (st : State) : State :=
  {| tasks := tasks st; isTitleInputDirty := isTitleInputDirty st;
     taskTitleInput_value := taskTitleInput_value st;
     taskDescriptionInput_value := taskDescriptionInput_value st;
     addTaskButton_textContent := addTaskButton_textContent st;
     addTaskButton_disabled := addTaskButton_disabled st;
     addTaskButton_editingId := addTaskButton_editingId st;
     titleErrorLabel_display := titleErrorLabel_display st;
     taskForm_submit := taskForm_submit st; tasksTableBody :=
     tasksTableBody st; tasksTable_display := v; localStorage_tasks :=
     localStorage_tasks st |}.

Definition set_localStorage_tasks (v : option jsstr) (st : State) : State :=
  {| tasks := tasks st; isTitleInputDirty := isTitleInputDirty st;
     taskTitleInput_value := taskTitleInput_value st;
     taskDescriptionInput_value := taskDescriptionInput_value st;
     addTaskButton_textContent := addTaskButton_textContent st;
     addTaskButton_disabled := addTaskButton_disabled st;
     addTaskButton_editingId := addTaskButton_editingId st;
     titleErrorLabel_display := titleErrorLabel_display st;
     taskForm_submit := taskForm_submit st; tasksTableBody :=
     tasksTableBody st; tasksTable_display := tasksTable_display st;
     localStorage_tasks := v |}.

(** [addEventListener]: a listener already registered is not added
    again; [removeEventListener]. *)
Definition addEventListener (l : Listener) (st : State) : State :=
  if decide (l ∈ taskForm_submit st) then st
  else set_taskForm_submit (taskForm_submit st ++ [l]) st.

Definition removeEventListener (l : Listener) (st : State) : State :=
  set_taskForm_submit (filter (λ l', l' ≠ l) (taskForm_submit st)) st.

(** [taskForm.reset()]: both fields return to their default value, which
    is empty (the scripts assume so: "asumiendo que el campo de título
    está vacío"). *)
Definition taskForm_reset (st : State) : State :=
  set_taskDescriptionInput_value [] (set_taskTitleInput_value [] st).

(** Result of the code that runs [JSON.parse]: normal completion, the
    [SyntaxError] thrown by [JSON.parse], or the end of the data model:
    [loadTasks] has bound [tasks] to the parsed value [v], which is not an
    array of task records.  What the page does with such a value
    ([renderTasks] throws a [TypeError] on [null], for one) is not
    described by this file. *)
Inductive Outcome (A : Type) :=
| Normal (a : A)
| Throws
| Untyped (v : json).
Arguments Normal {A} a.
Arguments Throws {A}.
Arguments Untyped {A} v.

(** *** Functions that read the same in [script.js] and [js/script.js]
    ([validateTitle] and the field listeners: [script.js] and
    [js/formValidation.js]) *)

Definition saveTasks (st : State) : State :=
  set_localStorage_tasks (Some (JSON_stringify (tasks st))) st.

(** [if (storedTasks)] is false for [null] and for the empty string. *)
Definition loadTasks (st : State) : Outcome State :=
  match localStorage_tasks st with
  | None => Normal st
  | Some [] => Normal st
  | Some (c :: s) =>
      match JSON_parse (c :: s) with
      | None => Throws
      | Some v =>
          match tasks_of_json v with
          | Some ts => Normal (set_tasks ts st)
          | None => Untyped v
          end
      end
  end.

Definition MIN_TITLE_LEN : nat := 5.
Definition MAX_TITLE_LEN : nat := 50.

(** [title.length >= 5 && title.length <= 50] on the trimmed value. *)
Definition isValid (v : jsstr) : bool :=
  let title := trim v in
  (MIN_TITLE_LEN <=? length title)%nat && (length title <=? MAX_TITLE_LEN)%nat.

Definition validateTitle (st : State) : State * bool :=
  let ok := isValid (taskTitleInput_value st) in
  let st1 :=
    if isTitleInputDirty st then
      if negb ok then set_titleErrorLabel_display (lit "block") st
      else set_titleErrorLabel_display (lit "none") st
    else set_titleErrorLabel_display (lit "none") st in
  (set_addTaskButton_disabled (negb ok) st1, ok).

Definition renderTasks (st : State) : State :=
  match tasks st with
  | [] =>
      set_tasksTableBody [NoTasksMessage] (set_tasksTable_display (lit "none") st)
  | _ :: _ =>
      set_tasksTableBody (map TaskRow (tasks st))
        (set_tasksTable_display (lit "table") st)
  end.

(** [tasks.find(task => task.id === n)] with its index ([findIndex]). *)
Definition find_task (n : number) (ts : list Task) : option (nat * Task) :=
  list_find (λ t, strict_eq (id t) n = true) ts.

Definition deleteTask (n : number) (st : State) : State :=
  renderTasks (saveTasks
    (set_tasks (filter (λ t, strict_eq (id t) n = false) (tasks st)) st)).

Definition toggleCompleteTask (n : number) (st : State) : State :=
  match find_task n (tasks st) with
  | Some (i, t) =>
      let t' := {| id := id t; title := title t; description := description t;
                   completed := negb (completed t) |} in
      renderTasks (saveTasks (set_tasks (<[i := t']> (tasks st)) st))
  | None => st
  end.

(** Listeners of the title field: [input], [blur], [focus]. *)
Definition onTitleInput (st : State) : State :=
  let st1 :=
    if (0 <? length (trim (taskTitleInput_value st)))%nat
    then set_isTitleInputDirty true st
    else if negb (isTitleInputDirty st)
         then set_titleErrorLabel_display (lit "none") st
         else st in
  (validateTitle st1).1.

Definition onTitleBlur (st : State) : State :=
  (validateTitle (set_isTitleInputDirty true st)).1.

Definition onTitleFocus (st : State) : State :=
  if negb (isTitleInputDirty st)
     && bool_decide (trim (taskTitleInput_value st) = [])
  then set_titleErrorLabel_display (lit "none") st
  else st.

(** [taskTitleInput.focus()] runs the [focus] listener.  (When the field
    already has the focus no event is fired; the listener can only hide an
    error label that is hidden anyway, see [onTitleFocus].) *)
Definition taskTitleInput_focus (st : State) : State := onTitleFocus st.

(** The task the form would store: trimmed fields. *)
Definition with_form_fields (t : Task) (st : State) : Task :=
  {| id := id t;
     title := trim (taskTitleInput_value st);
     description := trim (taskDescriptionInput_value st);
     completed := completed t |}.

Definition newTask (now : Z) (st : State) : Task :=
  {| id := now;
     title := trim (taskTitleInput_value st);
     description := trim (taskDescriptionInput_value st);
     completed := false |}.

(** User actions.  [Submit now] is a [submit] event of the form, [now]
    being what [Date.now()] reads during it; [Click b i ok] is a click on
    button [b] of the [i]-th row of the table body, [ok] the answer given
    to [confirm]. *)
Inductive Button :=
| EditButton
| DeleteButton
| CompleteButton.

Inductive Event :=
| TitleInput (v : jsstr)
| DescriptionInput (v : jsstr)
| TitleBlur
| TitleFocus
| Submit (now : Z)
| Click (b : Button) (i : nat) (ok : bool).

(** ** [script.js]: validation inside the handlers *)
Module Script.

Definition addTask (now : Z) (st : State) : State :=
  let st := set_isTitleInputDirty true st in
  let '(st, ok) := validateTitle st in
  if negb ok then st
  else
    let t := newTask now st in
    let st := set_tasks (tasks st ++ [t]) st in
    let st := saveTasks st in
    let st := renderTasks st in
    let st := taskForm_reset st in
    let st := set_addTaskButton_disabled true st in
    let st := taskTitleInput_focus st in
    let st := set_isTitleInputDirty false st in
    (validateTitle st).1.

Definition editTask (n : number) (st : State) : State :=
  match find_task n (tasks st) with
  | Some (_, taskToEdit) =>
      let st := set_taskTitleInput_value (title taskToEdit) st in
      let st := set_taskDescriptionInput_value (description taskToEdit) st in
      let st := set_addTaskButton_textContent (lit "Actualizar Tarea") st in
      let st := set_addTaskButton_editingId (Some (String_of_number n)) st in
      let st := set_isTitleInputDirty true st in
      let st := (validateTitle st).1 in
      let st := removeEventListener AddTask st in
      addEventListener UpdateTask st
  | None => st
  end.

Definition updateTask (st : State) : State :=
  let st := set_isTitleInputDirty true st in
  let '(st, ok) := validateTitle st in
  if negb ok then st
  else
    let editingId := parseInt_opt (addTaskButton_editingId st) in
    match find_task editingId (tasks st) with
    | Some (taskIndex, t) =>
        let st :=
          set_tasks (<[taskIndex := with_form_fields t st]> (tasks st)) st in
        let st := saveTasks st in
        let st := renderTasks st in
        let st := taskForm_reset st in
        let st := set_addTaskButton_textContent (lit "Agregar Tarea") st in
        let st := set_addTaskButton_editingId None st in
        let st := set_addTaskButton_disabled true st in
        let st := taskTitleInput_focus st in
        let st := set_isTitleInputDirty false st in
        let st := (validateTitle st).1 in
        let st := removeEventListener UpdateTask st in
        addEventListener AddTask st
    | None => st
    end.

Definition call (l : Listener) (now : Z) (st : State) : State :=
  match l with
  | AddTask => addTask now st
  | UpdateTask => updateTask st
  end.

(** Dispatch of [submit]: the listeners registered when the event
    fires are called in order, except those removed meanwhile. *)
Definition submit (now : Z) (st : State) : State :=
  foldl (λ st l, if decide (l ∈ taskForm_submit st) then call l now st
                 else st)
        st (taskForm_submit st).

(** The click listener of the table body. *)
Definition onTableClick (b : Button) (i : nat) (ok : bool) (st : State)
  : State :=
  match tasksTableBody st !! i with
  | None => st
  | Some NoTasksMessage => st
  | Some (TaskRow t as row) =>
      let taskId := parseInt_opt (row_dataset_id row) in
      match b with
      | EditButton => editTask taskId st
      | DeleteButton => if ok then deleteTask taskId st else st
      | CompleteButton => toggleCompleteTask taskId st
      end
  end.

Definition step (e : Event) (st : State) : State :=
  match e with
  | TitleInput v => onTitleInput (set_taskTitleInput_value v st)
  | DescriptionInput v => set_taskDescriptionInput_value v st
  | TitleBlur => onTitleBlur st
  | TitleFocus => onTitleFocus st
  | Submit now => submit now st
  | Click b i ok => onTableClick b i ok st
  end.

Definition run (es : list Event) (st : State) : State :=
  foldl (λ st e, step e st) st es.

(** The page as the browser hands it to the [DOMContentLoaded]
    listener, with [stored] under the storage key: empty fields, the
    button labelled as [updateTask] later restores it, no inline style on
    the error label (the style sheet hides it), an empty table body. *)
Definition blank (stored : option jsstr) : State :=
  {| tasks := []; isTitleInputDirty := false;
     taskTitleInput_value := []; taskDescriptionInput_value := [];
     addTaskButton_textContent := lit "Agregar Tarea";
     addTaskButton_disabled := false;
     addTaskButton_editingId := None;
     titleErrorLabel_display := [];
     taskForm_submit := [];
     tasksTableBody := [];
     tasksTable_display := [];
     localStorage_tasks := stored |}.

(** The [DOMContentLoaded] listener: register [addTask], load, render,
    disable the button.  [Normal st] is the page after a start-up that ran
    to its end on a list of task records.  [Throws] is the [SyntaxError]
    of [loadTasks], which ends the listener before it renders.  [Untyped]
    only records that [loadTasks] left the data model: the rest of the
    listener then runs on a value this file does not describe, and may
    throw in its turn. *)
Definition init (stored : option jsstr) : Outcome State :=
  let st := addEventListener AddTask (blank stored) in
  match loadTasks st with
  | Normal st => Normal (set_addTaskButton_disabled true (renderTasks st))
  | Throws => Throws
  | Untyped v => Untyped v
  end.

End Script.

(** ** [js/script.js] with [js/formValidation.js]: the handlers trust the
    [disabled] flag that the validation listeners maintain *)
Module Split.

Definition addTask (now : Z) (st : State) : State :=
  if addTaskButton_disabled st then st
  else
    let t := newTask now st in
    let st := set_tasks (tasks st ++ [t]) st in
    let st := saveTasks st in
    let st := renderTasks st in
    let st := taskForm_reset st in
    let st := set_addTaskButton_disabled true st in
    taskTitleInput_focus st.

Definition editTask (n : number) (st : State) : State :=
  match find_task n (tasks st) with
  | Some (_, taskToEdit) =>
      let st := set_taskTitleInput_value (title taskToEdit) st in
      let st := set_taskDescriptionInput_value (description taskToEdit) st in
      let st := set_addTaskButton_textContent (lit "Actualizar Tarea") st in
      let st := set_addTaskButton_editingId (Some (String_of_number n)) st in
      let st := removeEventListener AddTask st in
      addEventListener UpdateTask st
  | None => st
  end.

Definition updateTask (st : State) : State :=
  if addTaskButton_disabled st then st
  else
    let editingId := parseInt_opt (addTaskButton_editingId st) in
    match find_task editingId (tasks st) with
    | Some (taskIndex, t) =>
        let st :=
          set_tasks (<[taskIndex := with_form_fields t st]> (tasks st)) st in
        let st := saveTasks st in
        let st := renderTasks st in
        let st := taskForm_reset st in
        let st := set_addTaskButton_textContent (lit "Agregar Tarea") st in
        let st := set_addTaskButton_editingId None st in
        let st := set_addTaskButton_disabled true st in
        let st := taskTitleInput_focus st in
        let st := removeEventListener UpdateTask st in
        addEventListener AddTask st
    | None => st
    end.

Definition call (l : Listener) (now : Z) (st : State) : State :=
  match l with
  | AddTask => addTask now st
  | UpdateTask => updateTask st
  end.

Definition submit (now : Z) (st : State) : State :=
  foldl (λ st l, if decide (l ∈ taskForm_submit st) then call l now st
                 else st)
        st (taskForm_submit st).

(** The click listener of the table body (the text of [script.js]). *)
Definition onTableClick (b : Button) (i : nat) (ok : bool) (st : State)
  : State :=
  match tasksTableBody st !! i with
  | None => st
  | Some NoTasksMessage => st
  | Some (TaskRow t as row) =>
      let taskId := parseInt_opt (row_dataset_id row) in
      match b with
      | EditButton => editTask taskId st
      | DeleteButton => if ok then deleteTask taskId st else st
      | CompleteButton => toggleCompleteTask taskId st
      end
  end.

(** The field events run the listeners of [js/formValidation.js]. *)
Definition step (e : Event) (st : State) : State :=
  match e with
  | TitleInput v => onTitleInput (set_taskTitleInput_value v st)
  | DescriptionInput v => set_taskDescriptionInput_value v st
  | TitleBlur => onTitleBlur st
  | TitleFocus => onTitleFocus st
  | Submit now => submit now st
  | Click b i ok => onTableClick b i ok st
  end.

Definition run (es : list Event) (st : State) : State :=
  foldl (λ st e, step e st) st es.

(** The [DOMContentLoaded] listener of [js/script.js]: register
    [addTask], load, render.  The button keeps the [disabled] state of the
    markup, [disabled0]: neither script sets it at start-up.  The three
    outcomes read as for [Script.init]. *)
Definition init (disabled0 : bool) (stored : option jsstr) : Outcome State :=
  let st :=
    addEventListener AddTask
      (set_addTaskButton_disabled disabled0 (Script.blank stored)) in
  match loadTasks st with
  | Normal st => Normal (renderTasks st)
  | Throws => Throws
  | Untyped v => Untyped v
  end.

End Split.

(** ** Vocabulary of the statements *)

(** Value of a run of decimal digits read left to right from [a]. *)
Definition digits_value (ds : jsstr) (a : N) : N :=
  fold_left (λ a c, a * 10 + (c - 48)) ds a.

(** The text of one object member: quoted key, colon, text of the value. *)
Definition member (k vs : jsstr) : jsstr :=
  34 :: quote_body k ++ 34 :: 58 :: vs.

(** No task of [ts] has the identifier [n]. *)
Definition absent (n : number) (ts : list Task) : Prop :=
  Forall (λ t, strict_eq (id t) n = false) ts.

(** The edit-session controller of §4.3 as it is encoded in the page:
    [Idle] when the form submits to [addTask], [Editing n] when it submits
    to [updateTask] and the button carries the identifier [n]. *)
Inductive Session :=
| Idle
| Editing (n : number).

Definition session (st : State) : option Session :=
  match taskForm_submit st with
  | [AddTask] => Some Idle
  | [UpdateTask] => Some (Editing (parseInt_opt (addTaskButton_editingId st)))
  | _ => None
  end.

(** What a handler may do to the list and its stored copy: leave both
    alone, or leave the store holding the serialization of the new list. *)
Definition persists (st st' : State) : Prop :=
  (tasks st' = tasks st ∧ localStorage_tasks st' = localStorage_tasks st) ∨
  localStorage_tasks st' = Some (JSON_stringify (tasks st')).

(** What a successful parse consumed bounds the fuel it needs. *)
Definition value_ok (f : nat) : Prop :=
  ∀ s v r,
    parse_value f s = Some (v, r) →
    (length r < length s)%nat ∧
    ∀ f', (2 * (length s - length r) ≤ f')%nat →
          parse_value f' s = Some (v, r).

Definition elements_ok (f : nat) : Prop :=
  ∀ s acc v r,
    parse_elements f s acc = Some (v, r) →
    (length r < length s)%nat ∧
    ∀ f', (2 * (length s - length r) + 1 ≤ f')%nat →
          parse_elements f' s acc = Some (v, r).

Definition members_ok (f : nat) : Prop :=
  ∀ s acc v r,
    parse_members f s acc = Some (v, r) →
    (length r < length s)%nat ∧
    ∀ f', (2 * (length s - length r) + 1 ≤ f')%nat →
          parse_members f' s acc = Some (v, r).

(** The form has exactly one submit listener. *)
Definition bound (st : State) : Prop :=
  taskForm_submit st = [AddTask] ∨ taskForm_submit st = [UpdateTask].

(** A page holding the tasks [ts], idle, with [v] and [d] typed into the
    form; used to state examples. *)
Definition page (ts : list Task) (v d : jsstr) : State :=
  {| tasks := ts; isTitleInputDirty := true;
     taskTitleInput_value := v; taskDescriptionInput_value := d;
     addTaskButton_textContent := lit "Agregar Tarea";
     addTaskButton_disabled := negb (isValid v);
     addTaskButton_editingId := None;
     titleErrorLabel_display := if isValid v then lit "none" else lit "block";
     taskForm_submit := [AddTask];
     tasksTableBody :=
       match ts with [] => [NoTasksMessage] | _ :: _ => map TaskRow ts end;
     tasksTable_display :=
       match ts with [] => lit "none" | _ :: _ => lit "table" end;
     localStorage_tasks := Some (JSON_stringify ts) |}.

(** The rows [renderTasks] draws for a list. *)
Definition rows_of (ts : list Task) : list Row :=
  match ts with
  | [] => [NoTasksMessage]
  | _ :: _ => map TaskRow ts
  end.

(** The table shows the list. *)
Definition rendered (st : State) : Prop :=
  tasksTableBody st = rows_of (tasks st).

(** The button and the error label agree with the title field: the button
    is disabled exactly when the title is invalid, and the label is shown
    only on a touched field with an invalid title. *)
Definition form_ok (st : State) : Prop :=
  addTaskButton_disabled st = negb (isValid (taskTitleInput_value st)) ∧
  (titleErrorLabel_display st = lit "block" →
   isTitleInputDirty st = true ∧ isValid (taskTitleInput_value st) = false).

(** [t] with its completion flag inverted. *)
Definition toggled (t : Task) : Task :=
  {| id := id t; title := title t; description := description t;
     completed := negb (completed t) |}.

(** The bound handler, the label of the button and the identifier it
    carries tell the same story. *)
Definition controller_ok (st : State) : Prop :=
  (taskForm_submit st = [AddTask] ∧
   addTaskButton_textContent st = lit "Agregar Tarea" ∧
   addTaskButton_editingId st = None) ∨
  (taskForm_submit st = [UpdateTask] ∧
   addTaskButton_textContent st = lit "Actualizar Tarea" ∧
   ∃ i, addTaskButton_editingId st = Some (Number_toString i)).

(** Two pages that differ at most in the dirty flag and the error label,
    the two things only [validateTitle] maintains. *)
Definition agree (a b : State) : Prop :=
  tasks a = tasks b ∧
  localStorage_tasks a = localStorage_tasks b ∧
  taskForm_submit a = taskForm_submit b ∧
  taskTitleInput_value a = taskTitleInput_value b ∧
  taskDescriptionInput_value a = taskDescriptionInput_value b ∧
  addTaskButton_textContent a = addTaskButton_textContent b ∧
  addTaskButton_editingId a = addTaskButton_editingId b ∧
  addTaskButton_disabled a = addTaskButton_disabled b ∧
  tasksTableBody a = tasksTableBody b ∧
  tasksTable_display a = tasksTable_display b.

(** The three things every reachable page of [script.js] keeps, and the
    two that every reachable page of [js/script.js] keeps. *)
Definition consistent (st : State) : Prop :=
  rendered st ∧ form_ok st ∧ controller_ok st.

Definition Split_consistent (st : State) : Prop :=
  rendered st ∧ controller_ok st.

(** The integers a double holds exactly ([Number.isSafeInteger]).  On
    them [String], [parseInt], [JSON.stringify] and [JSON.parse] are the
    exact functions of this file.  Every reading of [Date.now()] is one: a
    time value is at most 8.64e15 in magnitude. *)
Definition safe_integer (z : Z) : Prop :=
  (- 9007199254740991 ≤ z ≤ 9007199254740991)%Z.

Definition safe_ids (ts : list Task) : Prop :=
  Forall (λ t, safe_integer (id t)) ts.

(** The clock reading of a submission is a safe integer. *)
Definition safe_clock (e : Event) : Prop :=
  match e with
  | Submit now => safe_integer now
  | _ => True
  end.

(** The strings a field gives back as they were assigned to it.  A text
    input drops line feeds and carriage returns from the value assigned; a
    textarea turns carriage returns into line feeds. *)
Definition single_line (s : jsstr) : Prop :=
  Forall (λ c, c ≠ 10 ∧ c ≠ 13) s.

Definition no_carriage_return (s : jsstr) : Prop :=
  Forall (λ c, c ≠ 13) s.


(** * Properties *)

(** ** Trimming and the validation verdict *)

Section Trim.

Lemma trimStart_split (s : jsstr) :
  ∃ pre, s = pre ++ trimStart s ∧ forallb isWhiteSpace pre = true.
Proof.
  induction s as [|c r [pre [Hs Hpre]]]; simpl.
  - by exists [].
  - destruct (isWhiteSpace c) eqn:Hc.
    + exists (c :: pre). simpl. rewrite Hc, Hpre. split; [by f_equal | done].
    + by exists [].
Qed.

Lemma trimStart_head (s : jsstr) (c : N) (r : jsstr) :
  trimStart s = c :: r → isWhiteSpace c = false.
Proof.
  induction s as [|a s IH]; simpl; [done|].
  destruct (isWhiteSpace a) eqn:Ha; [done|].
  intros [= <- <-]. done.
Qed.

(** White space is only removed at the ends: what is left of a string
    that starts with a non-space still starts with it. *)
Lemma trimStart_fixed (c : N) (r : jsstr) :
  isWhiteSpace c = false → trimStart (c :: r) = c :: r.
Proof. intros H. simpl. by rewrite H. Qed.

Lemma trimEnd_split (s : jsstr) :
  ∃ post, s = trimEnd s ++ post ∧ forallb isWhiteSpace post = true.
Proof.
  unfold trimEnd.
  destruct (trimStart_split (rev s)) as [pre [Hs Hpre]].
  exists (rev pre). split.
  - rewrite <- rev_app_distr, <- Hs. by rewrite rev_involutive.
  - rewrite forallb_forall in *. intros x Hx. apply Hpre. by apply in_rev.
Qed.

Lemma trimEnd_last (s r : jsstr) (c : N) :
  trimEnd s = r ++ [c] → isWhiteSpace c = false.
Proof.
  unfold trimEnd. intros H.
  apply (f_equal (@rev N)) in H.
  rewrite rev_involutive, rev_app_distr in H. simpl in H.
  by apply trimStart_head in H.
Qed.

Lemma trimEnd_head (c : N) (r : jsstr) :
  isWhiteSpace c = false → ∃ r', trimEnd (c :: r) = c :: r'.
Proof.
  intros Hc. unfold trimEnd. simpl.
  destruct (trimStart_split (rev r ++ [c])) as [pre [Hs Hpre]].
  destruct (trimStart (rev r ++ [c])) as [|x xs] eqn:Ht.
  - rewrite app_nil_r in Hs. rewrite <- Hs in Hpre.
    rewrite forallb_app in Hpre. simpl in Hpre. rewrite Hc in Hpre.
    by rewrite andb_false_r in Hpre.
  - apply (f_equal (@rev N)) in Hs.
    rewrite !rev_app_distr, rev_involutive in Hs. simpl in Hs.
    simpl. destruct (rev xs) as [|y ys]; simpl in *.
    + injection Hs as -> _. by exists [].
    + injection Hs as -> _. by exists (ys ++ [x]).
Qed.

(** [trim] removes a prefix and a suffix made of white space only, and
    what is left neither starts nor ends with white space. *)
Lemma trim_spec (s : jsstr) :
  ∃ pre post,
    s = pre ++ trim s ++ post ∧
    forallb isWhiteSpace pre = true ∧
    forallb isWhiteSpace post = true ∧
    (∀ c r, trim s = c :: r → isWhiteSpace c = false) ∧
    (∀ r c, trim s = r ++ [c] → isWhiteSpace c = false).
Proof.
  destruct (trimStart_split s) as [pre [Hs Hpre]].
  destruct (trimEnd_split (trimStart s)) as [post [Ht Hpost]].
  exists pre, post. unfold trim. repeat split; try done.
  - by rewrite <- Ht.
  - intros c r Hc.
    destruct (trimStart s) as [|a l] eqn:Hl; [done|].
    pose proof (trimStart_head _ _ _ Hl) as Ha.
    destruct (trimEnd_head a l Ha) as [r' Hr']. congruence.
  - intros r c. apply trimEnd_last.
Qed.

End Trim.

(** C1.  [validateTitle] returns [true] exactly when the title, with the
    white space at its two ends removed, has between 5 and 50 code units,
    and [false] in every other case.  The trimmed title is the middle part
    of the field's value between a prefix and a suffix of white space, and
    itself neither starts nor ends with white space. *)
Theorem validateTitle_verdict (st : State) :
  let t := trim (taskTitleInput_value st) in
  (∃ pre post,
      taskTitleInput_value st = pre ++ t ++ post ∧
      forallb isWhiteSpace pre = true ∧
      forallb isWhiteSpace post = true ∧
      (∀ c r, t = c :: r → isWhiteSpace c = false) ∧
      (∀ r c, t = r ++ [c] → isWhiteSpace c = false)) ∧
  ((validateTitle st).2 = true ↔ (5 ≤ length t ≤ 50)%nat) ∧
  ((validateTitle st).2 = false ↔ ¬ (5 ≤ length t ≤ 50)%nat).
Proof.
  intros t. split; [apply trim_spec|].
  change ((validateTitle st).2) with (isValid (taskTitleInput_value st)).
  unfold isValid, MIN_TITLE_LEN, MAX_TITLE_LEN. fold t.
  rewrite <- not_true_iff_false, andb_true_iff, !Nat.leb_le. tauto.
Qed.

Lemma isValid_iff (v : jsstr) :
  isValid v = true ↔ (5 ≤ length (trim v) ≤ 50)%nat.
Proof.
  unfold isValid, MIN_TITLE_LEN, MAX_TITLE_LEN.
  rewrite andb_true_iff, !Nat.leb_le. tauto.
Qed.

(** ** Decimal numerals: [String(n)] read back by [parseInt] *)

Section Numerals.

Lemma isDigit_range (c : N) : isDigit c = true ↔ 48 ≤ c ≤ 57.
Proof. unfold isDigit. rewrite andb_true_iff, !N.leb_le. tauto. Qed.

Lemma size_nat_gt (p : positive) :
  N.pos p < 2 ^ N.of_nat (Pos.size_nat p).
Proof.
  induction p as [p IH|p IH|]; simpl Pos.size_nat;
    rewrite ?Nat2N.inj_succ, ?N.pow_succ_r'; simpl; lia.
Qed.

Lemma digits_aux_shape (f : nat) :
  ∀ (n : N) (acc : jsstr),
    n < 2 ^ N.of_nat (S f) →
    ∃ c ds,
      digits_aux (S f) n acc = c :: ds ++ acc ∧
      isDigit c = true ∧ Forall (λ d, isDigit d = true) ds ∧
      (n ≠ 0 → c ≠ 48) ∧
      digits_value (c :: ds) 0 = n.
Proof.
  induction f as [|f IH]; intros n acc Hn;
    pose proof (N.mod_lt n 10 ltac:(lia)) as Hm;
    pose proof (N.div_mod n 10 ltac:(lia)) as Hdm;
    change (digits_aux (S ?g) n acc) with
      (if n / 10 =? 0 then (48 + n mod 10) :: acc
       else digits_aux g (n / 10) ((48 + n mod 10) :: acc));
    remember (n mod 10) as r eqn:Hr; remember (n / 10) as q eqn:Hq;
    clear Hr.
  - change (n < 2) in Hn.
    assert (q = 0) as -> by lia. simpl.
    exists (48 + r), []. repeat split; try done.
    + apply isDigit_range. lia.
    + lia.
    + unfold digits_value. simpl. lia.
  - destruct (N.eqb_spec q 0) as [Hz|Hz].
    + exists (48 + r), []. repeat split; try done.
      * apply isDigit_range. lia.
      * lia.
      * unfold digits_value. simpl. lia.
    + destruct (IH q ((48 + r) :: acc)) as
        (c & ds & Heq & Hc & Hds & Hnz & Hv).
      { rewrite Nat2N.inj_succ, N.pow_succ_r' in Hn. lia. }
      exists c, (ds ++ [48 + r]). repeat split.
      * rewrite Heq. by rewrite <- app_assoc.
      * done.
      * apply Forall_app. split; [done|].
        constructor; [|constructor]. apply isDigit_range. lia.
      * intros _. by apply Hnz.
      * unfold digits_value in *.
        rewrite app_comm_cons, fold_left_app, Hv. simpl. lia.
Qed.

Lemma digits_shape (n : N) :
  ∃ c ds,
    digits n = c :: ds ∧
    isDigit c = true ∧ Forall (λ d, isDigit d = true) ds ∧
    (n ≠ 0 → c ≠ 48) ∧
    digits_value (c :: ds) 0 = n.
Proof.
  destruct (digits_aux_shape (N.size_nat n) n []) as
    (c & ds & Heq & H).
  - destruct n as [|p]; [simpl; lia|].
    simpl N.size_nat. rewrite Nat2N.inj_succ, N.pow_succ_r'.
    pose proof (size_nat_gt p). lia.
  - exists c, ds. unfold digits. rewrite Heq, app_nil_r. done.
Qed.

Lemma hexval_digit (c : N) : isDigit c = true → hexval c = Some (c - 48).
Proof. intros H. unfold hexval. fold (isDigit c). by rewrite H. Qed.

Lemma radix_prefix_digits (ds : jsstr) (a : N) :
  Forall (λ d, isDigit d = true) ds →
  radix_prefix 10 ds (Some a) = Some (digits_value ds a).
Proof.
  intros H. revert a. induction H as [|c ds Hc _ IH]; intros a; [done|].
  simpl. rewrite (hexval_digit c Hc).
  apply isDigit_range in Hc.
  destruct (N.ltb_spec (c - 48) 10); [|lia].
  apply IH.
Qed.

Lemma isDigit_not_space (c : N) : isDigit c = true → isWhiteSpace c = false.
Proof.
  intros H. apply isDigit_range in H. unfold isWhiteSpace.
  repeat (apply orb_false_intro); try (apply N.eqb_neq; lia).
  apply andb_false_intro1, N.leb_gt. lia.
Qed.

(** [parseInt] of the numeral of a natural number. *)
Lemma parseInt_digits (n : N) : parseInt (digits n) = Int (Z.of_N n).
Proof.
  destruct (digits_shape n) as (c & ds & Heq & Hc & Hds & _ & Hv).
  rewrite Heq. unfold parseInt.
  rewrite (trimStart_fixed c ds (isDigit_not_space c Hc)).
  pose proof Hc as Hr. apply isDigit_range in Hr.
  replace (c =? 45) with false by (symmetry; apply N.eqb_neq; lia).
  replace (c =? 43) with false by (symmetry; apply N.eqb_neq; lia).
  cbn [orb].
  assert (match c :: ds with
          | a :: b :: _ => (a =? 48) && ((b =? 120) || (b =? 88))
          | _ => false
          end = false) as ->.
  { destruct ds as [|b ds']; [done|].
    apply Forall_cons in Hds as [Hb _]. apply isDigit_range in Hb.
    replace (b =? 120) with false by (symmetry; apply N.eqb_neq; lia).
    replace (b =? 88) with false by (symmetry; apply N.eqb_neq; lia).
    apply andb_false_r. }
  pose proof (radix_prefix_digits (c :: ds) 0 (Forall_cons_2 _ _ _ Hc Hds))
    as Hp.
  assert (radix_prefix 10 (c :: ds) None
          = radix_prefix 10 (c :: ds) (Some 0)) as ->.
  { simpl. rewrite (hexval_digit c Hc).
    destruct (N.ltb_spec (c - 48) 10); [done|lia]. }
  by rewrite Hp, Hv.
Qed.

(** The identifier written into [dataset] is read back unchanged. *)
Lemma parseInt_Number_toString (z : Z) :
  parseInt (Number_toString z) = Int z.
Proof.
  destruct z as [|p|p].
  - done.
  - change (Number_toString (Z.pos p)) with (digits (N.pos p)).
    by rewrite parseInt_digits.
  - change (Number_toString (Z.neg p)) with (45 :: digits (N.pos p)).
    pose proof (parseInt_digits (N.pos p)) as H.
    destruct (digits_shape (N.pos p)) as (c & ds & Heq & Hc & Hds & _ & Hv).
    rewrite Heq in *. unfold parseInt in *.
    rewrite (trimStart_fixed c ds (isDigit_not_space c Hc)) in H.
    assert (isWhiteSpace 45 = false) as Hm by done.
    rewrite (trimStart_fixed 45 (c :: ds) Hm).
    pose proof Hc as Hr. apply isDigit_range in Hr.
    replace (c =? 45) with false in H by (symmetry; apply N.eqb_neq; lia).
    replace (c =? 43) with false in H by (symmetry; apply N.eqb_neq; lia).
    cbn [orb] in H. change (45 =? 45) with true. cbn [orb].
    destruct (match c :: ds with
              | a :: b :: _ => (a =? 48) && ((b =? 120) || (b =? 88))
              | _ => false
              end);
      destruct (radix_prefix _ _ None); try done;
      injection H as H; f_equal; lia.
Qed.

End Numerals.

(** ** [JSON.parse] reads back what [JSON.stringify] wrote *)

Section StringLiterals.

Lemma hexval_hexdigit (d : N) : d < 16 → hexval (hexdigit d) = Some d.
Proof.
  intros Hd. unfold hexval, hexdigit.
  destruct (N.ltb_spec d 10) as [Hlt|Hge].
  - replace ((48 <=? 48 + d) && (48 + d <=? 57)) with true
      by (symmetry; rewrite andb_true_iff, !N.leb_le; lia).
    f_equal. lia.
  - replace ((48 <=? 87 + d) && (87 + d <=? 57)) with false
      by (symmetry; apply andb_false_intro2, N.leb_gt; lia).
    replace ((97 <=? 87 + d) && (87 + d <=? 102)) with true
      by (symmetry; rewrite andb_true_iff, !N.leb_le; lia).
    f_equal. lia.
Qed.

Lemma hex4_unicode_escape (c : N) :
  c < 65536 →
  hex4 (hexdigit (c / 4096)) (hexdigit ((c / 256) mod 16))
       (hexdigit ((c / 16) mod 16)) (hexdigit (c mod 16)) = Some c.
Proof.
  intros Hc. unfold hex4.
  rewrite !hexval_hexdigit.
  - f_equal. zify. Z.to_euclidean_division_equations. lia.
  - apply N.mod_lt. lia.
  - apply N.mod_lt. lia.
  - apply N.mod_lt. lia.
  - zify. Z.to_euclidean_division_equations. lia.
Qed.

Lemma parse_string_unicode (c : N) (r acc : jsstr) :
  c < 65536 →
  parse_string (unicode_escape c ++ r) acc = parse_string r (c :: acc).
Proof.
  intros Hc. unfold unicode_escape.
  change (parse_string (_ ++ r) acc) with
    (match hex4 (hexdigit (c / 4096)) (hexdigit ((c / 256) mod 16))
                (hexdigit ((c / 16) mod 16)) (hexdigit (c mod 16)) with
     | Some u => parse_string r (u :: acc)
     | None => None
     end).
  by rewrite hex4_unicode_escape.
Qed.

Lemma parse_string_literal (c : N) (r acc : jsstr) :
  c ≠ 34 → c ≠ 92 → 32 ≤ c →
  parse_string (c :: r) acc = parse_string r (c :: acc).
Proof.
  intros H1 H2 H3. simpl.
  destruct (N.eqb_spec c 34); [done|].
  destruct (N.eqb_spec c 92); [done|].
  destruct (N.ltb_spec c 32); [lia|done].
Qed.

Lemma is_high_range (c : N) : is_high c = true ↔ 55296 ≤ c ≤ 56319.
Proof. unfold is_high. rewrite andb_true_iff, !N.leb_le. tauto. Qed.

Lemma is_low_range (c : N) : is_low c = true ↔ 56320 ≤ c ≤ 57343.
Proof. unfold is_low. rewrite andb_true_iff, !N.leb_le. tauto. Qed.

Lemma parse_string_quote_unit (c : N) (r acc : jsstr) :
  is_high c = false →
  parse_string (quote_unit c ++ r) acc = parse_string r (c :: acc).
Proof.
  intros Hh. unfold quote_unit.
  repeat match goal with
         | |- context [if ?x =? ?k then _ else _] =>
             destruct (N.eqb_spec x k) as [->|?]; [done|]
         end.
  destruct (c <? 32) eqn:Hlt; simpl orb.
  - apply parse_string_unicode. apply N.ltb_lt in Hlt. lia.
  - destruct (is_low c) eqn:Hl.
    + apply parse_string_unicode. apply is_low_range in Hl. lia.
    + apply parse_string_literal; try done. by apply N.ltb_ge.
Qed.

Lemma quote_body_cons (c : N) (r : jsstr) :
  quote_body (c :: r) =
  if is_high c then
    match r with
    | d :: r' =>
        if is_low d then c :: d :: quote_body r'
        else unicode_escape c ++ quote_body r
    | [] => unicode_escape c
    end
  else quote_unit c ++ quote_body r.
Proof. done. Qed.

Lemma parse_string_quote_body_bounded (n : nat) :
  ∀ (s rest acc : jsstr),
    (length s ≤ n)%nat →
    parse_string (quote_body s ++ 34 :: rest) acc = Some (rev acc ++ s, rest).
Proof.
  induction n as [|n IH]; intros s rest acc Hlen.
  - destruct s; [|simpl in Hlen; lia]. simpl. by rewrite app_nil_r.
  - destruct s as [|c r]; [simpl; by rewrite app_nil_r|].
    simpl in Hlen.
    assert (rev acc ++ c :: r = rev (c :: acc) ++ r) as Hacc
      by (simpl; by rewrite <- app_assoc).
    rewrite quote_body_cons. destruct (is_high c) eqn:Hh.
    + pose proof Hh as Hr. apply is_high_range in Hr.
      destruct r as [|d r'].
      * by rewrite parse_string_unicode by lia.
      * destruct (is_low d) eqn:Hl.
        -- apply is_low_range in Hl. simpl in Hlen.
           rewrite <- !app_comm_cons.
           rewrite !parse_string_literal by lia.
           rewrite IH by lia.
           change (rev (d :: c :: acc)) with ((rev acc ++ [c]) ++ [d]).
           by rewrite <- !app_assoc.
        -- rewrite <- app_assoc, parse_string_unicode by lia.
           rewrite IH by lia. by rewrite Hacc.
    + rewrite <- app_assoc, parse_string_quote_unit by done.
      rewrite IH by lia. by rewrite Hacc.
Qed.

(** A quoted string is read back as the string it quotes. *)
Lemma parse_string_quote_body (s rest : jsstr) :
  parse_string (quote_body s ++ 34 :: rest) [] = Some (s, rest).
Proof. by rewrite (parse_string_quote_body_bounded (length s)). Qed.

End StringLiterals.

Section Values.

Lemma take_digits_run (ds : jsstr) :
  Forall (λ d, isDigit d = true) ds →
  ∀ (a k : N) (rest : jsstr),
    take_digits (ds ++ 44 :: rest) a k =
    (digits_value ds a, k + N.of_nat (length ds), 44 :: rest).
Proof.
  induction 1 as [|c ds Hc _ IH]; intros a k rest.
  - simpl. by rewrite N.add_0_r.
  - rewrite <- app_comm_cons.
    change (take_digits (c :: ds ++ 44 :: rest) a k) with
      (if isDigit c
       then take_digits (ds ++ 44 :: rest) (a * 10 + (c - 48)) (k + 1)
       else (a, k, c :: ds ++ 44 :: rest)).
    rewrite Hc, IH.
    replace (k + 1 + N.of_nat (length ds))
      with (k + N.of_nat (length (c :: ds))); [done|].
    rewrite length_cons, Nat2N.inj_succ. lia.
Qed.

Lemma parse_number_digits (n : N) (rest : jsstr) :
  parse_number (digits n ++ 44 :: rest) = Some (JNum (Z.of_N n) 0, 44 :: rest).
Proof.
  destruct (N.eq_dec n 0) as [->|Hn]; [done|].
  destruct (digits_shape n) as (c & ds & Heq & Hc & Hds & Hnz & Hv).
  specialize (Hnz Hn). rewrite Heq, <- app_comm_cons.
  pose proof Hc as Hr. apply isDigit_range in Hr.
  unfold parse_number.
  replace (c =? 45) with false by (symmetry; apply N.eqb_neq; lia).
  unfold parse_int_part.
  replace (c =? 48) with false by (symmetry; apply N.eqb_neq; lia).
  rewrite Hc, (take_digits_run ds Hds).
  change (digits_value ds (c - 48)) with (digits_value (c :: ds) 0).
  by rewrite Hv.
Qed.

Lemma parse_number_toString (z : Z) (rest : jsstr) :
  parse_number (Number_toString z ++ 44 :: rest) = Some (JNum z 0, 44 :: rest).
Proof.
  destruct z as [|p|p].
  - done.
  - apply (parse_number_digits (N.pos p)).
  - change (Number_toString (Z.neg p)) with (45 :: digits (N.pos p)).
    pose proof (parse_number_digits (N.pos p) rest) as H.
    destruct (digits_shape (N.pos p)) as (c & ds & Heq & Hc & _).
    rewrite Heq in *. apply isDigit_range in Hc.
    unfold parse_number in *. rewrite <- !app_comm_cons in *.
    replace (c =? 45) with false in H by (symmetry; apply N.eqb_neq; lia).
    change (45 =? 45) with true. cbv iota.
    destruct (parse_int_part _) as [[i s2]|]; [|done]. simpl in *.
    destruct (parse_frac_part i s2) as [[[m k] s3]|]; [|done]. simpl in *.
    destruct (parse_exp_part s3) as [[x s4]|]; [|done]. simpl in *.
    injection H as Hm Hx Hs. rewrite Hx, Hs. repeat f_equal. lia.
Qed.

(** The head of a numeral is a digit or the minus sign. *)
Lemma Number_toString_head (z : Z) :
  ∃ c r, Number_toString z = c :: r ∧ 45 ≤ c ≤ 57.
Proof.
  destruct z as [|p|p].
  - exists 48, []. split; [done|lia].
  - destruct (digits_shape (N.pos p)) as (c & ds & Heq & Hc & _).
    apply isDigit_range in Hc. exists c, ds. split; [done|lia].
  - exists 45, (digits (N.pos p)). split; [done|lia].
Qed.

Lemma parse_value_S (f : nat) (s : jsstr) :
  parse_value (S f) s =
  match skip_ws s with
  | [] => None
  | c :: r =>
      if c =? 91 then
        match skip_ws r with
        | [] => None
        | c' :: r' =>
            if c' =? 93 then Some (JArr [], r') else parse_elements f r []
        end
      else if c =? 123 then
        match skip_ws r with
        | [] => None
        | c' :: r' =>
            if c' =? 125 then Some (JObj [], r') else parse_members f r []
        end
      else if c =? 34 then
        '(str, r') ← parse_string r []; Some (JStr str, r')
      else if c =? 116 then parse_literal (lit "true") (JBool true) (c :: r)
      else if c =? 102 then
        parse_literal (lit "false") (JBool false) (c :: r)
      else if c =? 110 then parse_literal (lit "null") JNull (c :: r)
      else parse_number (c :: r)
  end.
Proof. done. Qed.

Lemma skip_ws_fixed (c : N) (r : jsstr) :
  is_json_ws c = false → skip_ws (c :: r) = c :: r.
Proof. intros H. simpl. by rewrite H. Qed.

Lemma parse_value_number (f : nat) (z : Z) (rest : jsstr) :
  parse_value (S f) (Number_toString z ++ 44 :: rest) =
  Some (JNum z 0, 44 :: rest).
Proof.
  rewrite parse_value_S, <- parse_number_toString.
  destruct (Number_toString_head z) as (c & r & -> & Hc).
  rewrite <- app_comm_cons, skip_ws_fixed.
  - repeat match goal with
           | |- context [if c =? ?k then _ else _] =>
               destruct (N.eqb_spec c k); [lia|]
           end.
    done.
  - unfold is_json_ws.
    repeat (apply orb_false_intro); apply N.eqb_neq; lia.
Qed.

Lemma parse_value_string (f : nat) (s rest : jsstr) :
  parse_value (S f) (34 :: quote_body s ++ 34 :: rest) = Some (JStr s, rest).
Proof.
  rewrite parse_value_S, skip_ws_fixed by done.
  change (34 =? 91) with false. change (34 =? 123) with false.
  change (34 =? 34) with true. cbv iota.
  by rewrite parse_string_quote_body.
Qed.

Lemma parse_value_bool (f : nat) (b : bool) (rest : jsstr) :
  parse_value (S f) ((if b then lit "true" else lit "false") ++ rest) =
  Some (JBool b, rest).
Proof. by destruct b. Qed.

Lemma parse_members_S (f : nat) (s : jsstr) (acc : list (jsstr * json)) :
  parse_members (S f) s acc =
  match skip_ws s with
  | [] => None
  | c :: r =>
      if c =? 34 then
        match parse_string r [] with
        | None => None
        | Some (k, r1) =>
            match skip_ws r1 with
            | [] => None
            | c1 :: r2 =>
                if c1 =? 58 then
                  match parse_value f r2 with
                  | None => None
                  | Some (v, r3) =>
                      match skip_ws r3 with
                      | [] => None
                      | c3 :: r4 =>
                          if c3 =? 44
                          then parse_members f r4 ((k, v) :: acc)
                          else if c3 =? 125
                          then Some (JObj (rev ((k, v) :: acc)), r4)
                          else None
                      end
                  end
                else None
            end
        end
      else None
  end.
Proof. done. Qed.

(** One member [ "k":value ] followed by a comma: the loop goes on. *)
Lemma parse_members_more (f : nat) (k vs rest : jsstr) (v : json)
      (acc : list (jsstr * json)) :
  parse_value f vs = Some (v, 44 :: rest) →
  parse_members (S f) (member k vs) acc =
  parse_members f rest ((k, v) :: acc).
Proof.
  intros Hv. unfold member.
  rewrite parse_members_S, skip_ws_fixed by done.
  change (34 =? 34) with true. cbv iota.
  rewrite parse_string_quote_body, skip_ws_fixed by done.
  change (58 =? 58) with true. cbv iota.
  rewrite Hv, skip_ws_fixed by done. done.
Qed.

(** The last member, followed by the closing brace. *)
Lemma parse_members_last (f : nat) (k vs rest : jsstr) (v : json)
      (acc : list (jsstr * json)) :
  parse_value f vs = Some (v, 125 :: rest) →
  parse_members (S f) (member k vs) acc =
  Some (JObj (rev ((k, v) :: acc)), rest).
Proof.
  intros Hv. unfold member.
  rewrite parse_members_S, skip_ws_fixed by done.
  change (34 =? 34) with true. cbv iota.
  rewrite parse_string_quote_body, skip_ws_fixed by done.
  change (58 =? 58) with true. cbv iota.
  rewrite Hv, skip_ws_fixed by done. done.
Qed.

End Values.

Section TaskArray.

Lemma stringify_task_app (t : Task) (rest : jsstr) :
  stringify_task t ++ rest =
  123 :: member (lit "id") (Number_toString (id t) ++
  44 :: member (lit "title") (34 :: quote_body (title t) ++ 34 ::
  44 :: member (lit "description") (34 :: quote_body (description t) ++ 34 ::
  44 :: member (lit "completed")
          ((if completed t then lit "true" else lit "false") ++
  125 :: rest)))).
Proof.
  unfold stringify_task, member, QuoteJSONString.
  repeat (rewrite <- app_assoc || rewrite <- app_comm_cons).
  done.
Qed.

Lemma parse_value_object (f : nat) (k vs : jsstr) :
  parse_value (S f) (123 :: member k vs) = parse_members f (member k vs) [].
Proof.
  unfold member. rewrite parse_value_S. by rewrite !skip_ws_fixed by done.
Qed.

(** An object written by [stringify_task] is read back member by
    member. *)
Lemma parse_value_task (f : nat) (t : Task) (rest : jsstr) :
  parse_value (6 + f) (stringify_task t ++ rest) = Some (json_of_task t, rest).
Proof.
  rewrite stringify_task_app.
  change (6 + f)%nat with (S (S (S (S (S (S f)))))).
  rewrite parse_value_object.
  rewrite (parse_members_more _ _ _ _ (JNum (id t) 0))
    by apply parse_value_number.
  rewrite (parse_members_more _ _ _ _ (JStr (title t)))
    by apply parse_value_string.
  rewrite (parse_members_more _ _ _ _ (JStr (description t)))
    by apply parse_value_string.
  rewrite (parse_members_last _ _ _ _ (JBool (completed t)))
    by apply parse_value_bool.
  done.
Qed.

Lemma stringify_task_head (t : Task) (rest : jsstr) :
  ∃ r, stringify_task t ++ rest = 123 :: r.
Proof. rewrite stringify_task_app. eauto. Qed.

Lemma stringify_task_length (t : Task) : (6 ≤ length (stringify_task t))%nat.
Proof.
  rewrite <- (app_nil_r (stringify_task t)), stringify_task_app.
  unfold member. change (quote_body (lit "id")) with [105; 100].
  simpl. lia.
Qed.

Lemma stringify_elements_cons (t t' : Task) (ts : list Task) :
  stringify_elements (t :: t' :: ts) =
  stringify_task t ++ 44 :: stringify_elements (t' :: ts).
Proof. done. Qed.

Lemma stringify_elements_length (ts : list Task) :
  (length ts ≤ length (stringify_elements ts))%nat.
Proof.
  induction ts as [|t [|t' ts] IH]; [done| |].
  - pose proof (stringify_task_length t). simpl in *. lia.
  - rewrite stringify_elements_cons, length_app.
    pose proof (stringify_task_length t). simpl in *. lia.
Qed.

Lemma parse_elements_S (f : nat) (s : jsstr) (acc : list json) :
  parse_elements (S f) s acc =
  match parse_value f s with
  | None => None
  | Some (v, r) =>
      match skip_ws r with
      | [] => None
      | c :: r' =>
          if c =? 44 then parse_elements f r' (v :: acc)
          else if c =? 93 then Some (JArr (rev (v :: acc)), r')
          else None
      end
  end.
Proof. done. Qed.

Lemma parse_elements_tasks (ts : list Task) :
  ∀ (t : Task) (f : nat) (acc : list json) (rest : jsstr),
    (length ts ≤ f)%nat →
    parse_elements (7 + f) (stringify_elements (t :: ts) ++ 93 :: rest) acc =
    Some (JArr (rev acc ++ map json_of_task (t :: ts)), rest).
Proof.
  induction ts as [|t' ts IH]; intros t f acc rest Hf.
  - change (7 + f)%nat with (S (6 + f)).
    rewrite parse_elements_S.
    change (stringify_elements [t]) with (stringify_task t).
    rewrite parse_value_task, skip_ws_fixed by done. done.
  - destruct f as [|f]; [simpl in Hf; lia|].
    change (7 + S f)%nat with (S (6 + S f)).
    rewrite parse_elements_S, stringify_elements_cons.
    rewrite <- app_assoc, <- app_comm_cons.
    rewrite parse_value_task, skip_ws_fixed by done.
    change (44 =? 44) with true. cbv iota.
    change (6 + S f)%nat with (7 + f)%nat.
    rewrite IH by (simpl in Hf; lia).
    change (rev (json_of_task t :: acc)) with (rev acc ++ [json_of_task t]).
    by rewrite <- app_assoc.
Qed.

(** [JSON.parse(JSON.stringify(tasks))] succeeds and yields the array of
    the task objects, in order. *)
Lemma JSON_parse_stringify (ts : list Task) :
  JSON_parse (JSON_stringify ts) = Some (JArr (map json_of_task ts)).
Proof.
  destruct ts as [|t ts]; [done|].
  unfold JSON_parse, JSON_stringify.
  set (s := [91] ++ stringify_elements (t :: ts) ++ [93]).
  assert (∃ f, (2 * length s + 2 = S (7 + f))%nat ∧ (length ts ≤ f)%nat)
    as (f & -> & Hf).
  { exists (2 * length s + 2 - 8)%nat.
    pose proof (stringify_elements_length (t :: ts)) as Hl.
    assert (6 ≤ length (stringify_elements (t :: ts)))%nat as H6.
    { destruct ts as [|t' ts].
      - apply stringify_task_length.
      - rewrite stringify_elements_cons, length_app.
        pose proof (stringify_task_length t). lia. }
    subst s. rewrite !length_app. simpl length in *. lia. }
  subst s. rewrite parse_value_S.
  change ([91] ++ ?x) with (91 :: x).
  rewrite skip_ws_fixed by done.
  change (91 =? 91) with true. cbv iota.
  assert (∃ r, stringify_elements (t :: ts) ++ [93] = 123 :: r) as [r Hr].
  { destruct ts as [|t' ts].
    - apply stringify_task_head.
    - rewrite stringify_elements_cons, <- app_assoc.
      apply stringify_task_head. }
  rewrite Hr, skip_ws_fixed by done.
  change (123 =? 93) with false. cbv iota.
  rewrite <- Hr, parse_elements_tasks by done.
  done.
Qed.

Lemma integer_value_0 (z : Z) : integer_value z 0 = Some z.
Proof. unfold integer_value. simpl. f_equal. lia. Qed.

Lemma task_of_json_of_task (t : Task) : task_of_json (json_of_task t) = Some t.
Proof.
  destruct t as [i ti d c]. unfold task_of_json, json_of_task.
  cbn [id title description completed].
  change (forallb _ _) with true. cbv iota.
  change (obj_get (lit "id") _) with (Some (JNum i 0)).
  change (obj_get (lit "title") _) with (Some (JStr ti)).
  change (obj_get (lit "description") _) with (Some (JStr d)).
  change (obj_get (lit "completed") _) with (Some (JBool c)).
  cbv iota. by rewrite integer_value_0.
Qed.

Lemma tasks_of_json_of_tasks (ts : list Task) :
  tasks_of_json (JArr (map json_of_task ts)) = Some ts.
Proof.
  unfold tasks_of_json.
  induction ts as [|t ts IH]; [done|].
  cbn [map mapM]. rewrite task_of_json_of_task. simpl. by rewrite IH.
Qed.

End TaskArray.

(** ** The parser does not run out of fuel *)

Section Fuel.

Lemma skip_ws_length (s : jsstr) : (length (skip_ws s) ≤ length s)%nat.
Proof.
  induction s as [|c r IH]; simpl; [lia|].
  destruct (is_json_ws c); simpl; lia.
Qed.

Lemma skip_ws_cons_length (s : jsstr) (c : N) (r : jsstr) :
  skip_ws s = c :: r → (length r < length s)%nat.
Proof.
  intros H. pose proof (skip_ws_length s) as Hl. rewrite H in Hl.
  simpl in Hl. lia.
Qed.

Lemma parse_string_length (n : nat) :
  ∀ (s acc k r : jsstr),
    (length s ≤ n)%nat →
    parse_string s acc = Some (k, r) → (length r < length s)%nat.
Proof.
  induction n as [|n IH]; intros s acc k r Hn H.
  - destruct s; [done|simpl in Hn; lia].
  - destruct s as [|c s]; [done|]. simpl in Hn. simpl in H.
    destruct (c =? 34); [injection H as _ <-; simpl; lia|].
    destruct (c =? 92).
    + destruct s as [|e s]; [done|]. simpl in Hn.
      repeat match type of H with
             | (if ?b then _ else _) = _ =>
                 destruct b;
                 [first [apply IH in H; [simpl; lia|lia] | idtac]|]
             end; try done.
      destruct s as [|h1 [|h2 [|h3 [|h4 s]]]]; try done.
      destruct (hex4 h1 h2 h3 h4); [|done].
      simpl in Hn. apply IH in H; [simpl; lia|lia].
    + destruct (c <? 32); [done|].
      apply IH in H; [simpl; lia|lia].
Qed.

Lemma take_digits_length (s : jsstr) :
  ∀ (a k x k' : N) (r : jsstr),
    take_digits s a k = (x, k', r) → (length r ≤ length s)%nat.
Proof.
  induction s as [|c s IH]; intros a k x k' r H; simpl in H.
  - injection H as _ _ <-. done.
  - destruct (isDigit c).
    + apply IH in H. simpl. lia.
    + injection H as _ _ <-. done.
Qed.

Lemma parse_int_part_length (s : jsstr) (i : N) (r : jsstr) :
  parse_int_part s = Some (i, r) → (length r < length s)%nat.
Proof.
  unfold parse_int_part. destruct s as [|c s]; [done|].
  destruct (c =? 48); [intros [= _ <-]; simpl; lia|].
  destruct (isDigit c); [|done].
  destruct (take_digits s (c - 48) 1) as [[m k] r'] eqn:Ht.
  intros [= _ <-]. apply take_digits_length in Ht. simpl. lia.
Qed.

Lemma parse_frac_part_length (m : N) (s : jsstr) (m' k : N) (r : jsstr) :
  parse_frac_part m s = Some (m', k, r) → (length r ≤ length s)%nat.
Proof.
  unfold parse_frac_part. destruct s as [|c s]; [by intros [= _ _ <-]|].
  destruct (c =? 46); [|by intros [= _ _ <-]].
  destruct (take_digits s m 0) as [[x k'] r'] eqn:Ht.
  destruct (k' =? 0); [done|].
  intros [= _ _ <-]. apply take_digits_length in Ht. simpl. lia.
Qed.

Lemma parse_exp_part_length (s : jsstr) (x : Z) (r : jsstr) :
  parse_exp_part s = Some (x, r) → (length r ≤ length s)%nat.
Proof.
  unfold parse_exp_part. destruct s as [|c s]; [by intros [= _ <-]|].
  destruct ((c =? 101) || (c =? 69)); [|by intros [= _ <-]].
  destruct (take_digits _ 0 0) as [[y k] r'] eqn:Ht.
  destruct (k =? 0); [done|].
  intros [= _ <-]. apply take_digits_length in Ht.
  destruct s as [|d s]; simpl in *; [lia|].
  destruct ((d =? 45) || (d =? 43)); simpl in *; lia.
Qed.

Lemma parse_number_length (s : jsstr) (v : json) (r : jsstr) :
  parse_number s = Some (v, r) → (length r < length s)%nat.
Proof.
  unfold parse_number.
  set (s1 := match s with c :: r0 => if c =? 45 then r0 else s | [] => s end).
  assert (length s1 ≤ length s)%nat as Hs1.
  { subst s1. destruct s as [|c r0]; [done|].
    destruct (c =? 45); simpl; lia. }
  destruct (parse_int_part s1) as [[i s2]|] eqn:Hi; [|done]. simpl.
  destruct (parse_frac_part i s2) as [[[m k] s3]|] eqn:Hf; [|done]. simpl.
  destruct (parse_exp_part s3) as [[x s4]|] eqn:He; [|done]. simpl.
  intros [= _ <-].
  apply parse_int_part_length in Hi. apply parse_frac_part_length in Hf.
  apply parse_exp_part_length in He. lia.
Qed.

Lemma drop_literal_length (p s r : jsstr) :
  drop_literal p s = Some r → (length r + length p = length s)%nat.
Proof.
  revert s. induction p as [|a p IH]; intros s; simpl.
  - by intros [= ->].
  - destruct s as [|b s]; [done|]. destruct (a =? b); [|done].
    intros H. apply IH in H. simpl. lia.
Qed.

Lemma parse_literal_length (p : jsstr) (v0 : json) (s : jsstr) (v : json)
      (r : jsstr) :
  p ≠ [] → parse_literal p v0 s = Some (v, r) → (length r < length s)%nat.
Proof.
  unfold parse_literal. intros Hp.
  destruct (drop_literal p s) as [r'|] eqn:H; [|done]. simpl.
  intros [= _ <-]. apply drop_literal_length in H.
  destruct p; [done|]. simpl in H. lia.
Qed.

Lemma value_ok_S (f : nat) :
  elements_ok f → members_ok f → value_ok (S f).
Proof.
  intros HE HM s v r H. rewrite parse_value_S in H.
  destruct (skip_ws s) as [|c r0] eqn:Hws; [done|].
  pose proof (skip_ws_cons_length _ _ _ Hws) as Hl0.
  assert (∀ f', (2 * (length s - length r) ≤ f')%nat →
                (length r < length s)%nat →
                ∃ g, f' = S g ∧ (2 * (length s - length r) ≤ S g)%nat) as Hf.
  { intros [|g] ? ?; [lia|]. by exists g. }
  destruct (c =? 91) eqn:E1.
  { destruct (skip_ws r0) as [|c' r'] eqn:Hws'; [done|].
    pose proof (skip_ws_cons_length _ _ _ Hws') as Hl1.
    destruct (c' =? 93) eqn:E2.
    - injection H as <- <-. split; [lia|]. intros f' Hf'.
      destruct (Hf f' Hf') as (g & -> & _); [lia|].
      by rewrite parse_value_S, Hws, E1, Hws', E2.
    - apply HE in H as [Hlen Hmore]. split; [lia|]. intros f' Hf'.
      destruct (Hf f' Hf') as (g & -> & Hg); [lia|].
      rewrite parse_value_S, Hws, E1, Hws', E2. apply Hmore. lia. }
  destruct (c =? 123) eqn:E3.
  { destruct (skip_ws r0) as [|c' r'] eqn:Hws'; [done|].
    pose proof (skip_ws_cons_length _ _ _ Hws') as Hl1.
    destruct (c' =? 125) eqn:E2.
    - injection H as <- <-. split; [lia|]. intros f' Hf'.
      destruct (Hf f' Hf') as (g & -> & _); [lia|].
      by rewrite parse_value_S, Hws, E1, E3, Hws', E2.
    - apply HM in H as [Hlen Hmore]. split; [lia|]. intros f' Hf'.
      destruct (Hf f' Hf') as (g & -> & Hg); [lia|].
      rewrite parse_value_S, Hws, E1, E3, Hws', E2. apply Hmore. lia. }
  assert ((length r < length (c :: r0))%nat) as Hlen.
  { destruct (c =? 34).
    - destruct (parse_string r0 []) as [[str r']|] eqn:Hp; [|done].
      injection H as _ <-.
      apply (parse_string_length (length r0)) in Hp; [simpl; lia|lia].
    - destruct (c =? 116); [by apply parse_literal_length in H|].
      destruct (c =? 102); [by apply parse_literal_length in H|].
      destruct (c =? 110); [by apply parse_literal_length in H|].
      by apply parse_number_length in H. }
  simpl in Hlen. split; [lia|]. intros f' Hf'.
  destruct (Hf f' Hf') as (g & -> & _); [lia|].
  by rewrite parse_value_S, Hws, E1, E3.
Qed.

Lemma elements_ok_S (f : nat) :
  value_ok f → elements_ok f → elements_ok (S f).
Proof.
  intros HV HE s acc v r H. rewrite parse_elements_S in H.
  destruct (parse_value f s) as [[v1 r1]|] eqn:Hv; [|done].
  apply HV in Hv as [Hl1 Hv].
  destruct (skip_ws r1) as [|c r'] eqn:Hws; [done|].
  pose proof (skip_ws_cons_length _ _ _ Hws) as Hl2.
  destruct (c =? 44) eqn:E1.
  - apply HE in H as [Hl3 Hmore]. split; [lia|].
    intros [|g] Hg; [lia|].
    rewrite parse_elements_S, Hv, Hws, E1 by lia. apply Hmore. lia.
  - destruct (c =? 93) eqn:E2; [|done]. injection H as <- <-.
    split; [lia|]. intros [|g] Hg; [lia|].
    by rewrite parse_elements_S, Hv, Hws, E1, E2 by lia.
Qed.

Lemma members_ok_S (f : nat) :
  value_ok f → members_ok f → members_ok (S f).
Proof.
  intros HV HM s acc v r H. rewrite parse_members_S in H.
  destruct (skip_ws s) as [|c r0] eqn:Hws0; [done|].
  pose proof (skip_ws_cons_length _ _ _ Hws0) as Hl0.
  destruct (c =? 34) eqn:E0; [|done].
  destruct (parse_string r0 []) as [[k r1]|] eqn:Hk; [|done].
  pose proof (parse_string_length _ _ _ _ _ (le_n _) Hk) as Hl1.
  destruct (skip_ws r1) as [|c1 r2] eqn:Hws1; [done|].
  pose proof (skip_ws_cons_length _ _ _ Hws1) as Hl2.
  destruct (c1 =? 58) eqn:E1; [|done].
  destruct (parse_value f r2) as [[v1 r3]|] eqn:Hv; [|done].
  apply HV in Hv as [Hl3 Hv].
  destruct (skip_ws r3) as [|c3 r4] eqn:Hws3; [done|].
  pose proof (skip_ws_cons_length _ _ _ Hws3) as Hl4.
  destruct (c3 =? 44) eqn:E3.
  - apply HM in H as [Hl5 Hmore]. split; [lia|].
    intros [|g] Hg; [lia|].
    rewrite parse_members_S, Hws0, E0, Hk, Hws1, E1, Hv, Hws3, E3 by lia.
    apply Hmore. lia.
  - destruct (c3 =? 125) eqn:E4; [|done]. injection H as <- <-.
    split; [lia|]. intros [|g] Hg; [lia|].
    by rewrite parse_members_S, Hws0, E0, Hk, Hws1, E1, Hv, Hws3, E3, E4
      by lia.
Qed.

Lemma parse_ok (f : nat) : value_ok f ∧ elements_ok f ∧ members_ok f.
Proof.
  induction f as [|f (HV & HE & HM)].
  - split_and!; intros ?; intros; discriminate.
  - split_and!.
    + by apply value_ok_S.
    + by apply elements_ok_S.
    + by apply members_ok_S.
Qed.

(** The fuel [JSON_parse] starts with is enough: whatever any amount of
    fuel parses, [JSON_parse] parses; its [None] is a syntax error. *)
Lemma JSON_parse_complete (f : nat) (s : jsstr) (v : json) (r : jsstr) :
  parse_value f s = Some (v, r) → skip_ws r = [] → JSON_parse s = Some v.
Proof.
  intros H Hr. destruct (parse_ok f) as (HV & _).
  apply HV in H as [_ H]. unfold JSON_parse.
  rewrite H by lia. by rewrite Hr.
Qed.

End Fuel.

(** [JSON_parse] fails only on texts that no amount of fuel parses. *)
Lemma JSON_parse_None_iff (s : jsstr) :
  JSON_parse s = None ↔
  ∀ f v r, parse_value f s = Some (v, r) → skip_ws r ≠ [].
Proof.
  split.
  - intros Hn f v r H Hr.
    by rewrite (JSON_parse_complete f s v r H Hr) in Hn.
  - intros H. unfold JSON_parse.
    destruct (parse_value _ s) as [[v r]|] eqn:Hp; [|done].
    specialize (H _ _ _ Hp). by destruct (skip_ws r).
Qed.

(** ** The handlers as record updates *)

#[local] Arguments isValid : simpl never.
#[local] Arguments trim : simpl never.
#[local] Arguments lit : simpl never.
#[local] Arguments parseInt : simpl never.
#[local] Arguments parseInt_opt : simpl never.
#[local] Arguments find_task : simpl never.
#[local] Arguments JSON_stringify : simpl never.
#[local] Arguments JSON_parse : simpl never.
#[local] Arguments Number_toString : simpl never.
#[local] Arguments String_of_number : simpl never.

Section NormalForms.

Lemma validateTitle_nf (st : State) :
  validateTitle st =
  (set_addTaskButton_disabled (negb (isValid (taskTitleInput_value st)))
     (set_titleErrorLabel_display
        (if isTitleInputDirty st && negb (isValid (taskTitleInput_value st))
         then lit "block" else lit "none") st),
   isValid (taskTitleInput_value st)).
Proof.
  unfold validateTitle.
  by destruct (isTitleInputDirty st), (isValid (taskTitleInput_value st)).
Qed.

Lemma renderTasks_nf (st : State) :
  renderTasks st =
  set_tasksTableBody
    (match tasks st with [] => [NoTasksMessage] | _ => map TaskRow (tasks st) end)
    (set_tasksTable_display
       (match tasks st with [] => lit "none" | _ => lit "table" end) st).
Proof. unfold renderTasks. by destruct (tasks st). Qed.

Lemma onTitleFocus_nf (st : State) :
  onTitleFocus st =
  set_titleErrorLabel_display
    (if negb (isTitleInputDirty st)
        && bool_decide (trim (taskTitleInput_value st) = [])
     then lit "none" else titleErrorLabel_display st) st.
Proof.
  unfold onTitleFocus.
  destruct (negb _ && _); [done|]. by destruct st.
Qed.

Lemma addEventListener_nf (l : Listener) (st : State) :
  addEventListener l st =
  set_taskForm_submit
    (if decide (l ∈ taskForm_submit st) then taskForm_submit st
     else taskForm_submit st ++ [l]) st.
Proof.
  unfold addEventListener.
  destruct (decide _); [|done]. by destruct st.
Qed.

End NormalForms.

(** Evaluation of projections, setters and the straight-line helpers. *)
Ltac st_eval :=
  cbn [tasks isTitleInputDirty taskTitleInput_value taskDescriptionInput_value
       addTaskButton_textContent addTaskButton_disabled addTaskButton_editingId
       titleErrorLabel_display taskForm_submit tasksTableBody tasksTable_display
       localStorage_tasks
       set_tasks set_isTitleInputDirty set_taskTitleInput_value
       set_taskDescriptionInput_value set_addTaskButton_textContent
       set_addTaskButton_disabled set_addTaskButton_editingId
       set_titleErrorLabel_display set_taskForm_submit set_tasksTableBody
       set_tasksTable_display set_localStorage_tasks
       fst snd negb andb saveTasks taskForm_reset taskTitleInput_focus
       removeEventListener with_form_fields newTask] in *.

Ltac nf :=
  rewrite ?validateTitle_nf, ?renderTasks_nf, ?onTitleFocus_nf,
    ?addEventListener_nf; st_eval.

Ltac nfs := repeat (progress nf).

Ltac open_state st :=
  destruct st as [ts dirty tv dv txt dis eid disp ls rows tdisp stor];
  st_eval.

(** ** Looking a task up by identifier *)

Section Lookup.

Lemma find_task_absent (n : number) (ts : list Task) :
  absent n ts → find_task n ts = None.
Proof.
  intros H. apply list_find_None.
  eapply Forall_impl; [exact H|]. simpl. intros t Ht. by rewrite Ht.
Qed.

Lemma find_task_first (n : number) (l1 l2 : list Task) (t : Task) :
  absent n l1 → strict_eq (id t) n = true →
  find_task n (l1 ++ t :: l2) = Some (length l1, t).
Proof.
  intros H1 Ht. apply list_find_Some. repeat split.
  - apply list_lookup_middle. done.
  - done.
  - intros j y Hj Hlt. rewrite lookup_app_l in Hj by done.
    unfold absent in H1. rewrite Forall_lookup in H1.
    specialize (H1 j y Hj). simpl in H1. by rewrite H1.
Qed.

Lemma filter_absent (n : number) (ts : list Task) :
  absent n ts → filter (λ t, strict_eq (id t) n = false) ts = ts.
Proof.
  induction 1 as [|t ts Ht _ IH]; [done|].
  rewrite filter_cons_True by done. by rewrite IH.
Qed.

Lemma insert_middle (l1 l2 : list Task) (t t' : Task) :
  <[length l1 := t']> (l1 ++ t :: l2) = l1 ++ t' :: l2.
Proof.
  rewrite <- (Nat.add_0_r (length l1)). by rewrite insert_app_r.
Qed.

Lemma strict_eq_Int (i j : Z) : strict_eq i (Int j) = true ↔ i = j.
Proof. simpl. apply Z.eqb_eq. Qed.

End Lookup.

(** C9.  On every page, whatever its task list, [deleteTask] keeps the
    tasks whose identifier differs from the given one and no other, each
    as it was and in the order they had: the new list is the old one
    filtered by identifier.  So the list stays as it is when no task has
    the identifier, and when a task has it that task is taken out with
    every task sharing its identifier; if it is the only one, the list is
    what stood before it followed by what stood after it. *)
Theorem deleteTask_removes_exactly (st : State) (n : number) :
  tasks (deleteTask n st)
  = filter (λ t, strict_eq (id t) n = false) (tasks st) ∧
  tasks (deleteTask n st) `sublist_of` tasks st ∧
  (∀ t, t ∈ tasks (deleteTask n st) ↔
        t ∈ tasks st ∧ strict_eq (id t) n = false) ∧
  (absent n (tasks st) → tasks (deleteTask n st) = tasks st) ∧
  (∀ l1 t l2,
      tasks st = l1 ++ t :: l2 →
      strict_eq (id t) n = true →
      tasks (deleteTask n st)
      = filter (λ t, strict_eq (id t) n = false) l1 ++
        filter (λ t, strict_eq (id t) n = false) l2 ∧
      (absent n (l1 ++ l2) → tasks (deleteTask n st) = l1 ++ l2)).
Proof.
  open_state st. unfold deleteTask. nf. split_and!.
  - done.
  - apply sublist_filter.
  - intros t. rewrite list_elem_of_filter. tauto.
  - apply filter_absent.
  - intros l1 t l2 -> Ht.
    rewrite filter_app, filter_cons_False by (simpl; by rewrite Ht).
    split; [done|]. intros Habs.
    apply Forall_app in Habs as [H1 H2].
    by rewrite !filter_absent.
Qed.

Lemma deleteTask_removes_exactly_witness :
  let a := {| id := 1; title := lit "first"; description := []; completed := false |} in
  let b := {| id := 2; title := lit "second"; description := []; completed := true |} in
  let c := {| id := 3; title := lit "third"; description := []; completed := false |} in
  let b' := {| id := 2; title := lit "fourth"; description := []; completed := false |} in
  tasks (deleteTask (Int 9) (page [a; b; c] [] [])) = [a; b; c] ∧
  tasks (deleteTask (Int 2) (page [a; b; c] [] [])) = [a; c] ∧
  tasks (deleteTask (Int 2) (page [a; b; c; b'] [] [])) = [a; c].
Proof.
  intros a b c b'. split_and!.
  - apply (proj1 (proj2 (proj2 (proj2
             (deleteTask_removes_exactly (page [a; b; c] [] []) (Int 9)))))).
    repeat constructor.
  - apply (proj2 (proj2 (proj2 (proj2
             (deleteTask_removes_exactly (page [a; b; c] [] []) (Int 2)))))
             [a] b [c]); [reflexivity | reflexivity | repeat constructor].
  - apply (proj1 (proj2 (proj2 (proj2 (proj2
             (deleteTask_removes_exactly (page [a; b; c; b'] [] []) (Int 2)))))
             [a] b [c; b'] eq_refl eq_refl)).
Defined.

(** C10.  [editTask] with an identifier that no task has changes nothing
    at all on the page, in either version of the script. *)
Theorem editTask_absent_noop (st : State) (n : number) :
  absent n (tasks st) →
  Script.editTask n st = st ∧ Split.editTask n st = st.
Proof.
  intros H. unfold Script.editTask, Split.editTask.
  by rewrite (find_task_absent n (tasks st) H).
Qed.

Lemma editTask_absent_noop_witness :
  let a := {| id := 1; title := lit "first task"; description := []; completed := false |} in
  let st := page [a] (lit "typed so far") (lit "notes") in
  Script.editTask (Int 7) st = st ∧ Split.editTask (Int 7) st = st.
Proof.
  intros a st. apply (editTask_absent_noop st (Int 7)). repeat constructor.
Defined.

Lemma parseInt_opt_toString (i : Z) :
  parseInt_opt (Some (Number_toString i)) = Int i.
Proof. apply parseInt_Number_toString. Qed.

(** C3.  [updateTask], submitted with a valid title while the button
    carries [String(i)]: when no task has identifier [i] the list and the
    stored string stay as they are; otherwise the first task with
    identifier [i] (the only one, identifiers being unique) gets the
    trimmed contents of the two fields as title and description, keeps its
    [id] and [completed], and every other task keeps its place and value. *)
Theorem updateTask_overwrites (st : State) (i : Z) :
  addTaskButton_editingId st = Some (Number_toString i) →
  isValid (taskTitleInput_value st) = true →
  (absent (Int i) (tasks st) →
   tasks (Script.updateTask st) = tasks st ∧
   localStorage_tasks (Script.updateTask st) = localStorage_tasks st) ∧
  (∀ l1 t l2,
      tasks st = l1 ++ t :: l2 →
      id t = i →
      absent (Int i) l1 →
      tasks (Script.updateTask st) =
      l1 ++ {| id := id t;
               title := trim (taskTitleInput_value st);
               description := trim (taskDescriptionInput_value st);
               completed := completed t |} :: l2).
Proof.
  open_state st.
  intros Hid Hv. unfold Script.updateTask. nfs. rewrite Hv. nfs.
  rewrite Hid, parseInt_opt_toString. split.
  - intros Habs. by rewrite (find_task_absent _ _ Habs).
  - intros l1 t l2 Hts Ht Habs.
    rewrite Hts, (find_task_first _ l1 l2 t Habs)
      by (by apply strict_eq_Int).
    nfs. apply insert_middle.
Qed.

Lemma updateTask_overwrites_witness :
  let a := {| id := 1; title := lit "first task"; description := []; completed := false |} in
  let b := {| id := 2; title := lit "second task"; description := lit "old"; completed := true |} in
  let st := set_addTaskButton_editingId (Some (Number_toString 2))
              (page [a; b] (lit "  second, edited ") (lit "new ")) in
  tasks (Script.updateTask st) =
  [a; {| id := 2; title := lit "second, edited"; description := lit "new";
         completed := true |}] ∧
  let st9 := set_addTaskButton_editingId (Some (Number_toString 9)) st in
  tasks (Script.updateTask st9) = [a; b] ∧
  localStorage_tasks (Script.updateTask st9) = Some (JSON_stringify [a; b]).
Proof.
  intros a b st. split.
  - apply (proj2 (updateTask_overwrites st 2 eq_refl eq_refl) [a] b []);
      [reflexivity | reflexivity | repeat constructor].
  - intros st9.
    apply (proj1 (updateTask_overwrites st9 9 eq_refl eq_refl)).
    repeat constructor.
Defined.

(** A handler called with an invalid title returns before it touches the
    list, the store or the title field. *)
Lemma call_invalid (l : Listener) (now : Z) (s : State) :
  isValid (taskTitleInput_value s) = false →
  tasks (Script.call l now s) = tasks s ∧
  localStorage_tasks (Script.call l now s) = localStorage_tasks s ∧
  taskTitleInput_value (Script.call l now s) = taskTitleInput_value s.
Proof.
  destruct l; intros Hs; open_state s;
    unfold Script.call, Script.addTask, Script.updateTask;
    nfs; rewrite Hs; by nfs.
Qed.

(** C4.  A submission whose title is not valid changes neither the task
    list nor the stored string, whether the form is bound to [addTask], to
    [updateTask], or the event is dispatched to whatever is bound. *)
Theorem invalid_title_rejected (st : State) (now : Z) :
  isValid (taskTitleInput_value st) = false →
  (tasks (Script.addTask now st) = tasks st ∧
   localStorage_tasks (Script.addTask now st) = localStorage_tasks st) ∧
  (tasks (Script.updateTask st) = tasks st ∧
   localStorage_tasks (Script.updateTask st) = localStorage_tasks st) ∧
  (tasks (Script.submit now st) = tasks st ∧
   localStorage_tasks (Script.submit now st) = localStorage_tasks st).
Proof.
  intros Hv. split; [|split].
  - destruct (call_invalid AddTask now st Hv) as (? & ? & _). done.
  - destruct (call_invalid UpdateTask now st Hv) as (? & ? & _). done.
  - unfold Script.submit.
    generalize (taskForm_submit st). intros ls.
    revert st Hv. induction ls as [|l ls IH]; intros st Hv;
      [split; reflexivity|].
    simpl. destruct (decide (l ∈ taskForm_submit st)).
    + destruct (call_invalid l now st Hv) as (Ht & Hs & Hval).
      destruct (IH (Script.call l now st)) as [IH1 IH2]; [by rewrite Hval|].
      split; congruence.
    + by apply IH.
Qed.

(** In [js/script.js] the gate is the button: a disabled button stops both
    handlers, and the listeners of [js/formValidation.js] leave the button
    disabled exactly when the title they saw is invalid. *)
Lemma Split_disabled_rejected (st : State) (now : Z) :
  addTaskButton_disabled st = true →
  Split.addTask now st = st ∧ Split.updateTask st = st.
Proof.
  intros H. unfold Split.addTask, Split.updateTask. by rewrite H.
Qed.

Lemma validation_listeners_set_flag (st : State) (v : jsstr) :
  addTaskButton_disabled (onTitleInput (set_taskTitleInput_value v st))
  = negb (isValid v) ∧
  addTaskButton_disabled (onTitleBlur st)
  = negb (isValid (taskTitleInput_value st)).
Proof.
  open_state st. unfold onTitleInput, onTitleBlur. st_eval.
  destruct (0 <? length (trim v))%nat; [|destruct (negb dirty)]; by nfs.
Qed.

(** [create("Hi", "")] on a page that holds one task. *)
Lemma invalid_title_rejected_witness :
  let a := {| id := 1; title := lit "first task"; description := []; completed := false |} in
  let st := page [a] (lit "Hi") [] in
  tasks (Script.submit 1750000000000 st) = [a] ∧
  localStorage_tasks (Script.submit 1750000000000 st) = Some (JSON_stringify [a]).
Proof.
  intros a st.
  apply (proj2 (proj2 (invalid_title_rejected st 1750000000000 eq_refl))).
Defined.

(** ** Creating a task *)

(** With a valid title, [addTask] puts one task at the end of the list:
    not completed, with the trimmed contents of the two fields, and with
    the clock reading as identifier; the list is then written to storage. *)
Lemma addTask_appends (st : State) (now : Z) :
  isValid (taskTitleInput_value st) = true →
  tasks (Script.addTask now st) =
  tasks st ++ [{| id := now;
                  title := trim (taskTitleInput_value st);
                  description := trim (taskDescriptionInput_value st);
                  completed := false |}] ∧
  localStorage_tasks (Script.addTask now st) =
  Some (JSON_stringify (tasks (Script.addTask now st))).
Proof.
  open_state st. intros Hv. unfold Script.addTask. nfs. rewrite Hv. by nfs.
Qed.

(** The same for [js/script.js], whose gate is the [disabled] flag. *)
Lemma Split_addTask_appends (st : State) (now : Z) :
  addTaskButton_disabled st = false →
  tasks (Split.addTask now st) =
  tasks st ++ [{| id := now;
                  title := trim (taskTitleInput_value st);
                  description := trim (taskDescriptionInput_value st);
                  completed := false |}] ∧
  localStorage_tasks (Split.addTask now st) =
  Some (JSON_stringify (tasks (Split.addTask now st))).
Proof.
  open_state st. intros Hv. unfold Split.addTask. rewrite Hv. by nfs.
Qed.

(** C2.  The identifier of a new task is what [Date.now()] reads.  On a
    page that holds a task created at millisecond 1750000000000, a
    submission during which the clock reads 1750000000000 again appends a
    second task with the identifier of the first, in both versions of the
    script. *)
Theorem addTask_repeats_id :
  let a := {| id := 1750000000000; title := lit "Buy groceries";
              description := lit "milk, eggs"; completed := false |} in
  let b := {| id := 1750000000000; title := lit "Call the bank";
              description := []; completed := false |} in
  let st := page [a] (lit " Call the bank ") [] in
  tasks (Script.addTask 1750000000000 st) = [a; b] ∧
  tasks (Split.addTask 1750000000000 st) = [a; b] ∧
  id b = id a.
Proof. vm_compute. done. Qed.

(** ** A stale edit session *)

(** A valid submission to [updateTask] when no task has the identifier
    the button carries: nothing is stored, and the form stays bound to
    [updateTask] with the same identifier and label. *)
Lemma updateTask_stale (st : State) :
  isValid (taskTitleInput_value st) = true →
  absent (parseInt_opt (addTaskButton_editingId st)) (tasks st) →
  tasks (Script.updateTask st) = tasks st ∧
  localStorage_tasks (Script.updateTask st) = localStorage_tasks st ∧
  taskForm_submit (Script.updateTask st) = taskForm_submit st ∧
  addTaskButton_editingId (Script.updateTask st) = addTaskButton_editingId st ∧
  addTaskButton_textContent (Script.updateTask st)
  = addTaskButton_textContent st.
Proof.
  open_state st. intros Hv Habs. unfold Script.updateTask. nfs.
  rewrite Hv. nfs. by rewrite (find_task_absent _ _ Habs).
Qed.

(** C6.  Edit the only task, delete it, submit the form: the list stays
    empty, and the page is still in the edit session of the deleted task:
    bound to [updateTask], labelled "Actualizar Tarea".  A further
    submission with a valid title creates nothing. *)
Theorem stale_edit_session_persists :
  let a := {| id := 1750000000000; title := lit "Buy groceries";
              description := lit "milk, eggs"; completed := false |} in
  let st :=
    Script.run [Click EditButton 0 false; Click DeleteButton 0 true;
                Submit 1750000005000] (page [a] [] []) in
  tasks st = [] ∧
  session st = Some (Editing (Int 1750000000000)) ∧
  taskForm_submit st = [UpdateTask] ∧
  addTaskButton_textContent st = lit "Actualizar Tarea" ∧
  tasks (Script.run [TitleInput (lit "Water the plants");
                     Submit 1750000009000] st) = [].
Proof. vm_compute. done. Qed.

(** ** The form always has one submit listener *)

Section Bound.







End Bound.

(** ** One edit session at a time *)

Lemma find_task_unique (ts : list Task) (k : nat) (t : Task) :
  NoDup (map id ts) → ts !! k = Some t →
  find_task (Int (id t)) ts = Some (k, t).
Proof.
  intros Hnd Hk. apply list_find_Some. repeat split; [done| |].
  - simpl. apply Z.eqb_refl.
  - intros j y Hj Hlt Heq. simpl in Heq. apply Z.eqb_eq in Heq.
    assert (map id ts !! j = Some (id y)) as H1
        by (by rewrite list_lookup_fmap, Hj).
    assert (map id ts !! k = Some (id t)) as H2
        by (by rewrite list_lookup_fmap, Hk).
    rewrite Heq in H1.
    pose proof (NoDup_lookup _ _ _ _ Hnd H1 H2). lia.
Qed.

(** On a page whose tasks have distinct identifiers, beginning to edit
    task [a] and then task [b], whose identifier is a safe integer, leaves
    the form in the edit session of [b] alone; the next valid submission
    gives [b] the title and description typed meanwhile, leaves [a] and
    every other task as they were, and returns the form to creation. *)
Lemma edit_retargets
  (st : State) (i j : nat) (a b : Task) (v d : jsstr) (now : Z) :
  NoDup (map id (tasks st)) →
  safe_integer (id b) →
  tasks st !! i = Some a →
  tasks st !! j = Some b →
  i ≠ j →
  taskForm_submit st = [AddTask] ∨ taskForm_submit st = [UpdateTask] →
  isValid v = true →
  let st1 := Script.editTask (Int (id b)) (Script.editTask (Int (id a)) st) in
  let st2 := Script.run [TitleInput v; DescriptionInput d; Submit now] st1 in
  session st1 = Some (Editing (Int (id b))) ∧
  tasks st2 = <[j := {| id := id b; title := trim v; description := trim d;
                        completed := completed b |}]> (tasks st) ∧
  tasks st2 !! i = Some a ∧
  session st2 = Some Idle.
Proof.
  open_state st. intros Hnd _ Ha Hb Hij Hls Hv.
  assert (Script.editTask (Int (id b))
            (Script.editTask (Int (id a))
               {| tasks := ts; isTitleInputDirty := dirty;
                  taskTitleInput_value := tv; taskDescriptionInput_value := dv;
                  addTaskButton_textContent := txt;
                  addTaskButton_disabled := dis;
                  addTaskButton_editingId := eid;
                  titleErrorLabel_display := disp; taskForm_submit := ls;
                  tasksTableBody := rows; tasksTable_display := tdisp;
                  localStorage_tasks := stor |}) =
          {| tasks := ts; isTitleInputDirty := true;
             taskTitleInput_value := title b;
             taskDescriptionInput_value := description b;
             addTaskButton_textContent := lit "Actualizar Tarea";
             addTaskButton_disabled := negb (isValid (title b));
             addTaskButton_editingId := Some (Number_toString (id b));
             titleErrorLabel_display :=
               if negb (isValid (title b)) then lit "block" else lit "none";
             taskForm_submit := [UpdateTask];
             tasksTableBody := rows; tasksTable_display := tdisp;
             localStorage_tasks := stor |}) as ->.
  { unfold Script.editTask at 2. st_eval.
    rewrite (find_task_unique ts i a Hnd Ha). nfs.
    unfold Script.editTask. st_eval.
    rewrite (find_task_unique ts j b Hnd Hb). nfs.
    by destruct Hls as [-> | ->]. }
  assert ((0 <? length (trim v))%nat = true) as Hpos.
  { apply isValid_iff in Hv. apply Nat.ltb_lt. lia. }
  unfold Script.run. cbn [foldl Script.step].
  unfold onTitleInput. st_eval. rewrite Hpos. nfs. rewrite Hv. nfs.
  unfold Script.submit. st_eval. cbn [foldl].
  rewrite decide_True by (st_eval; apply list_elem_of_here).
  unfold Script.call, Script.updateTask. nfs. rewrite Hv. nfs.
  rewrite parseInt_opt_toString, (find_task_unique ts j b Hnd Hb). nfs.
  unfold session. st_eval. rewrite parseInt_opt_toString.
  split_and!; try reflexivity.
  rewrite list_lookup_insert_ne by done. done.
Qed.

Lemma edit_retargets_witness :
  let a := {| id := 1; title := lit "Buy groceries"; description := lit "milk";
              completed := false |} in
  let b := {| id := 2; title := lit "Call the bank"; description := [];
              completed := true |} in
  let st := page [a; b] [] [] in
  let st1 := Script.editTask (Int 2) (Script.editTask (Int 1) st) in
  let st2 := Script.run [TitleInput (lit "Call the bank today");
                         DescriptionInput (lit " before noon");
                         Submit 1750000000000] st1 in
  session st1 = Some (Editing (Int 2)) ∧
  tasks st2 = [a; {| id := 2; title := lit "Call the bank today";
                     description := lit "before noon"; completed := true |}] ∧
  tasks st2 !! 0%nat = Some a ∧
  session st2 = Some Idle.
Proof.
  intros a b st.
  apply (edit_retargets st 0 1 a b (lit "Call the bank today")
           (lit " before noon") 1750000000000).
  - apply (bool_decide_unpack _). reflexivity.
  - unfold safe_integer. simpl. lia.
  - reflexivity.
  - reflexivity.
  - discriminate.
  - left. reflexivity.
  - reflexivity.
Defined.

(** C7.  Two tasks created during one reading of the clock share their
    identifier, and the page finds a task by its identifier: started on an
    empty store, with tasks [a] and [b] created at millisecond
    1750000000000, a click on "Editar" in the row of [a] and then in the
    row of [b] leaves the form in an edit session that holds the title and
    description of [a]; the submission that follows rewrites [a] and
    leaves [b] as it was.  So it is in both versions of the script. *)
Theorem edit_retargets_to_first_of_equal_ids :
  let a := {| id := 1750000000000; title := lit "Buy groceries";
              description := lit "milk, eggs"; completed := false |} in
  let b := {| id := 1750000000000; title := lit "Call the bank";
              description := []; completed := false |} in
  let a' := {| id := 1750000000000; title := lit "Call the bank today";
               description := lit "before noon"; completed := false |} in
  let create :=
    [TitleInput (lit "Buy groceries"); DescriptionInput (lit "milk, eggs");
     Submit 1750000000000;
     TitleInput (lit "Call the bank"); Submit 1750000000000] in
  let begin_edit := [Click EditButton 0 false; Click EditButton 1 false] in
  let finish :=
    [TitleInput (lit "Call the bank today");
     DescriptionInput (lit "before noon"); Submit 1750000060000] in
  a ≠ b ∧
  (∃ st0, Script.init None = Normal st0 ∧
     let st := Script.run create st0 in
     let st1 := Script.run begin_edit st in
     let st2 := Script.run finish st1 in
     tasks st = [a; b] ∧
     tasksTableBody st = [TaskRow a; TaskRow b] ∧
     session st1 = Some (Editing (Int 1750000000000)) ∧
     taskTitleInput_value st1 = title a ∧
     taskDescriptionInput_value st1 = description a ∧
     tasks st2 = [a'; b] ∧
     session st2 = Some Idle) ∧
  (∃ st0, Split.init true None = Normal st0 ∧
     let st := Split.run create st0 in
     let st1 := Split.run begin_edit st in
     let st2 := Split.run finish st1 in
     tasks st = [a; b] ∧
     taskTitleInput_value st1 = title a ∧
     tasks st2 = [a'; b]).
Proof.
  intros a b a' create begin_edit finish. split_and!.
  - discriminate.
  - eexists. split; [reflexivity|]. vm_compute. split_and!; reflexivity.
  - eexists. split; [reflexivity|]. vm_compute. split_and!; reflexivity.
Qed.

(** ** The stored string always reloads to the list *)

Section Persistence.

Lemma persists_refl (st : State) : persists st st.
Proof. by left. Qed.

Lemma persists_trans (a b c : State) :
  persists a b → persists b c → persists a c.
Proof.
  unfold persists. intros [[H1 H2]|H1] [[H3 H4]|H3]; try (by right).
  - left. split; congruence.
  - right. congruence.
Qed.

Lemma addTask_persists (now : Z) (st : State) :
  persists st (Script.addTask now st).
Proof.
  destruct (isValid (taskTitleInput_value st)) eqn:Hv.
  - right. apply (addTask_appends st now Hv).
  - left. destruct (call_invalid AddTask now st Hv) as (? & ? & _). done.
Qed.

Lemma updateTask_persists (st : State) : persists st (Script.updateTask st).
Proof.
  destruct (isValid (taskTitleInput_value st)) eqn:Hv.
  - revert Hv. open_state st. intros Hv. unfold Script.updateTask. nfs.
    rewrite Hv. nfs.
    destruct (find_task _ _) as [[k t]|]; nfs; [by right|by left].
  - left. destruct (call_invalid UpdateTask 0 st Hv) as (? & ? & _). done.
Qed.

Lemma editTask_persists (n : number) (st : State) :
  persists st (Script.editTask n st).
Proof.
  open_state st. unfold Script.editTask. st_eval.
  destruct (find_task n ts) as [[k t]|]; nfs; by left.
Qed.

Lemma deleteTask_persists (n : number) (st : State) :
  persists st (deleteTask n st).
Proof. open_state st. unfold deleteTask. nfs. by right. Qed.

Lemma toggleCompleteTask_persists (n : number) (st : State) :
  persists st (toggleCompleteTask n st).
Proof.
  open_state st. unfold toggleCompleteTask. st_eval.
  destruct (find_task n ts) as [[k t]|]; nfs; [by right|by left].
Qed.

Lemma submit_persists (now : Z) (st : State) :
  persists st (Script.submit now st).
Proof.
  unfold Script.submit. generalize (taskForm_submit st). intros ls.
  revert st. induction ls as [|l ls IH]; intros st; [apply persists_refl|].
  simpl. destruct (decide (l ∈ taskForm_submit st)); [|apply IH].
  eapply persists_trans; [|apply IH].
  destruct l; [apply addTask_persists|apply updateTask_persists].
Qed.

Lemma onTableClick_persists (b : Button) (i : nat) (ok : bool) (st : State) :
  persists st (Script.onTableClick b i ok st).
Proof.
  unfold Script.onTableClick.
  destruct (tasksTableBody st !! i) as [[t|]|]; try apply persists_refl.
  destruct b; [apply editTask_persists| |apply toggleCompleteTask_persists].
  destruct ok; [apply deleteTask_persists|apply persists_refl].
Qed.

Lemma step_persists (e : Event) (st : State) :
  persists st (Script.step e st).
Proof.
  destruct e; simpl Script.step.
  - open_state st. unfold onTitleInput. st_eval.
    destruct (0 <? length (trim v))%nat; [|destruct (negb dirty)];
      nfs; by left.
  - open_state st. by left.
  - open_state st. unfold onTitleBlur. nfs. by left.
  - open_state st. nfs. by left.
  - apply submit_persists.
  - apply onTableClick_persists.
Qed.

Lemma run_persists (es : list Event) (st : State) :
  persists st (Script.run es st).
Proof.
  unfold Script.run. revert st.
  induction es as [|e es IH]; intros st; [apply persists_refl|].
  simpl. eapply persists_trans; [apply step_persists|apply IH].
Qed.

(** Start-up on a string written by [saveTasks]. *)
Lemma init_after_save (ts : list Task) :
  ∃ st, Script.init (Some (JSON_stringify ts)) = Normal st ∧ tasks st = ts.
Proof.
  unfold Script.init, loadTasks, Script.blank. nf. st_eval.
  pose proof (JSON_parse_stringify ts) as Hp.
  change (JSON_stringify ts) with (91 :: stringify_elements ts ++ [93]) in *.
  cbv beta iota. rewrite Hp, tasks_of_json_of_tasks. nfs.
  eexists. split; [reflexivity|]. by st_eval.
Qed.

Lemma init_storage (stored : option jsstr) (st : State) :
  Script.init stored = Normal st → localStorage_tasks st = stored.
Proof.
  unfold Script.init, loadTasks, Script.blank. nf. st_eval.
  destruct stored as [[|c s]|]; nfs.
  - by intros [= <-].
  - destruct (JSON_parse (c :: s)) as [v|]; [|done].
    destruct (tasks_of_json v); [|done]. nfs. by intros [= <-].
  - by intros [= <-].
Qed.

End Persistence.

(** ** Start-up *)

(** The empty string is stored, is not JSON, and start-up completes. *)
Lemma load_empty_string_does_not_throw :
  JSON_parse [] = None ∧
  loadTasks (Script.blank (Some [])) = Normal (Script.blank (Some [])) ∧
  Script.init (Some []) ≠ Throws.
Proof. vm_compute. split_and!; done. Qed.

(** C8, amended.  [loadTasks] by the stored value, on any page.  With
    nothing stored, or with the empty string stored, it returns without
    touching the task list, which at start-up is empty.  A non-empty
    stored string that is JSON is deserialized into the task list: [tasks]
    is bound to the parsed value, the list of records it denotes when it
    is an array of task records (with identifiers in the safe range, where
    a number literal is read exactly), and in no case is anything thrown;
    so are loaded, in particular, the strings [saveTasks] writes.
    [loadTasks] throws exactly when a non-empty string is stored that is
    not JSON, and start-up then ends before it renders. *)
Theorem loadTasks_cases (st : State) :
  (localStorage_tasks st = None ∨ localStorage_tasks st = Some [] →
   loadTasks st = Normal st ∧
   ∃ st', Script.init (localStorage_tasks st) = Normal st' ∧ tasks st' = []) ∧
  (∀ s v,
      localStorage_tasks st = Some s → s ≠ [] → JSON_parse s = Some v →
      loadTasks st ≠ Throws ∧
      match tasks_of_json v with
      | Some ts => safe_ids ts → loadTasks st = Normal (set_tasks ts st)
      | None => loadTasks st = Untyped v
      end) ∧
  (∀ ts, localStorage_tasks st = Some (JSON_stringify ts) → safe_ids ts →
         loadTasks st = Normal (set_tasks ts st)) ∧
  (loadTasks st = Throws ↔
   ∃ s, localStorage_tasks st = Some s ∧ s ≠ [] ∧ JSON_parse s = None) ∧
  (loadTasks st = Throws → Script.init (localStorage_tasks st) = Throws).
Proof.
  split_and!.
  - intros H. split.
    + unfold loadTasks. by destruct H as [-> | ->].
    + destruct H as [-> | ->]; (eexists; split; [reflexivity|done]).
  - intros [|c s] v Hs Hne Hp; [done|].
    unfold loadTasks. rewrite Hs, Hp.
    by destruct (tasks_of_json v).
  - intros ts Hs _. unfold loadTasks. rewrite Hs.
    pose proof (JSON_parse_stringify ts) as Hp.
    change (JSON_stringify ts) with (91 :: stringify_elements ts ++ [93]) in *.
    cbv beta iota. by rewrite Hp, tasks_of_json_of_tasks.
  - unfold loadTasks.
    destruct (localStorage_tasks st) as [[|c s]|].
    + split; [done|]. by intros (s & [= <-] & Hne & _).
    + destruct (JSON_parse (c :: s)) as [v|] eqn:Hp.
      * destruct (tasks_of_json v);
          (split; [done|]; intros (s' & [= <-] & _ & Hp'); congruence).
      * split; [|done]. intros _. by exists (c :: s).
    + split; [done|]. by intros (s & [=] & _).
  - unfold Script.init, loadTasks, Script.blank. nf. st_eval.
    destruct (localStorage_tasks st) as [[|c s]|]; try done.
    destruct (JSON_parse (c :: s)) as [v|]; [|done].
    by destruct (tasks_of_json v).
Qed.

Lemma loadTasks_cases_witness :
  let a := {| id := 1750000000000; title := lit "Buy groceries";
              description := lit "milk, eggs"; completed := true |} in
  (loadTasks (Script.blank None) = Normal (Script.blank None) ∧
   ∃ st', Script.init None = Normal st' ∧ tasks st' = []) ∧
  loadTasks (Script.blank (Some (JSON_stringify [a])))
  = Normal (set_tasks [a] (Script.blank (Some (JSON_stringify [a])))) ∧
  loadTasks (Script.blank (Some (lit "null"))) = Untyped JNull ∧
  loadTasks (Script.blank (Some (lit "[{"))) = Throws ∧
  Script.init (Some (lit "[{")) = Throws.
Proof.
  intros a.
  assert (loadTasks (Script.blank (Some (lit "[{"))) = Throws) as Hthrows.
  { apply (proj1 (proj2 (proj2 (proj2
             (loadTasks_cases (Script.blank (Some (lit "[{")))))))).
    exists (lit "[{"). split_and!; [reflexivity|discriminate|reflexivity]. }
  split; [|split_and!].
  - apply (proj1 (loadTasks_cases (Script.blank None))). by left.
  - apply (proj1 (proj2 (proj2
             (loadTasks_cases (Script.blank (Some (JSON_stringify [a]))))))
             [a] eq_refl).
    repeat constructor; unfold safe_integer; simpl; lia.
  - apply (proj2 (proj1 (proj2 (loadTasks_cases (Script.blank (Some (lit "null")))))
             (lit "null") JNull eq_refl ltac:(discriminate) eq_refl)).
  - exact Hthrows.
  - apply (proj2 (proj2 (proj2 (proj2
             (loadTasks_cases (Script.blank (Some (lit "[{")))))))).
    exact Hthrows.
Defined.

(** ** Worked examples *)

(** White space at the ends does not count; an emoji counts twice. *)
Example isValid_examples :
  isValid (lit "Hi") = false ∧
  isValid (lit "    Hi    ") = false ∧
  isValid (lit "Hello") = true ∧
  isValid (9 :: 160 :: lit "Hello" ++ [8232; 65279]) = true ∧
  isValid (lit "abc" ++ [55357; 56832]) = true ∧
  isValid (repeat 120 50) = true ∧
  isValid (repeat 120 51) = false.
Proof. vm_compute. split_and!; done. Qed.

Example parseInt_examples :
  parseInt (lit "1750000000000") = Int 1750000000000 ∧
  parseInt (lit "  -12px") = Int (-12) ∧
  parseInt (lit "0x1f") = Int 31 ∧
  parseInt (lit "1.5") = Int 1 ∧
  parseInt (lit "abc") = NaN ∧
  parseInt_opt None = NaN.
Proof. vm_compute. split_and!; done. Qed.

Example JSON_parse_examples :
  JSON_parse (lit " [1.50e+3, -0, {}, [ ], null] ") =
    Some (JArr [JNum 150 1; JNum 0 0; JObj []; JArr []; JNull]) ∧
  JSON_parse (lit "[1,]") = None ∧
  JSON_parse (lit "01") = None ∧
  JSON_parse (lit "[1] x") = None ∧
  JSON_parse (lit "tru") = None ∧
  JSON_parse (34 :: 10 :: [34]) = None ∧
  JSON_parse (lit "[[[[[[[[[[[[]]]]]]]]]]]]") =
    Some (JArr [JArr [JArr [JArr [JArr [JArr [JArr [JArr [JArr [JArr
      [JArr [JArr []]]]]]]]]]]]).
Proof. vm_compute. split_and!; done. Qed.

(** The first scenario of §8: create, toggle, update, delete. *)
Example scenario_groceries :
  ∃ st0, Script.init None = Normal st0 ∧
  let st1 := Script.run [TitleInput (lit "Buy groceries");
                         DescriptionInput (lit "milk, eggs");
                         Submit 1750000000000] st0 in
  let st2 := Script.run [Click CompleteButton 0 false] st1 in
  let st3 := Script.run [Click EditButton 0 false;
                         TitleInput (lit "Buy groceries today");
                         DescriptionInput (lit "milk, eggs, bread");
                         Submit 1750000060000] st2 in
  let st4 := Script.run [Click DeleteButton 0 true] st3 in
  tasks st1 = [{| id := 1750000000000; title := lit "Buy groceries";
                  description := lit "milk, eggs"; completed := false |}] ∧
  tasks st2 = [{| id := 1750000000000; title := lit "Buy groceries";
                  description := lit "milk, eggs"; completed := true |}] ∧
  tasks st3 = [{| id := 1750000000000; title := lit "Buy groceries today";
                  description := lit "milk, eggs, bread"; completed := true |}] ∧
  session st3 = Some Idle ∧
  tasks st4 = [] ∧
  localStorage_tasks st4 = Some (lit "[]").
Proof. eexists. split; [reflexivity|]. vm_compute. split_and!; done. Qed.

(** * Further properties of the handlers *)

(** ** Toggling and deleting *)

Section ToggleDelete.

Lemma find_task_Some (n : number) (ts : list Task) (k : nat) (t : Task) :
  find_task n ts = Some (k, t) →
  ∃ l1 l2, ts = l1 ++ t :: l2 ∧ length l1 = k ∧
           strict_eq (id t) n = true ∧ absent n l1.
Proof.
  intros H. apply list_find_Some in H as (Hk & Ht & Hlt).
  exists (take k ts), (drop (S k) ts). split_and!.
  - by rewrite <- (take_drop_middle ts k t Hk) at 1.
  - apply length_take_le. apply lookup_lt_Some in Hk. lia.
  - done.
  - apply Forall_lookup. intros j y Hj.
    pose proof (lookup_lt_Some _ _ _ Hj) as Hlen.
    rewrite length_take in Hlen.
    rewrite lookup_take_lt in Hj by lia.
    specialize (Hlt j y Hj ltac:(lia)). simpl in Hlt.
    by destruct (strict_eq (id y) n).
Qed.

Lemma toggled_toggled (t : Task) : toggled (toggled t) = t.
Proof. destruct t as [i ti d c]. unfold toggled. simpl. by rewrite negb_involutive. Qed.

Lemma toggleCompleteTask_found (st : State) (n : number)
      (l1 l2 : list Task) (t : Task) :
  tasks st = l1 ++ t :: l2 →
  strict_eq (id t) n = true →
  absent n l1 →
  tasks (toggleCompleteTask n st) = l1 ++ toggled t :: l2 ∧
  localStorage_tasks (toggleCompleteTask n st)
  = Some (JSON_stringify (l1 ++ toggled t :: l2)).
Proof.
  open_state st. intros -> Ht Habs. unfold toggleCompleteTask. st_eval.
  rewrite (find_task_first n l1 l2 t Habs Ht). nfs.
  by rewrite (insert_middle l1 l2 t).
Qed.

(** X1.  [toggleCompleteTask] with an identifier no task has leaves the
    whole page as it is; otherwise it inverts the [completed] flag of the
    first task with that identifier, leaves every other task and the order
    alone, and stores the new list. *)
Theorem toggleCompleteTask_flips_one (st : State) (n : number) :
  (absent n (tasks st) → toggleCompleteTask n st = st) ∧
  (∀ l1 t l2,
      tasks st = l1 ++ t :: l2 →
      strict_eq (id t) n = true →
      absent n l1 →
      tasks (toggleCompleteTask n st) = l1 ++ toggled t :: l2 ∧
      localStorage_tasks (toggleCompleteTask n st)
      = Some (JSON_stringify (l1 ++ toggled t :: l2))).
Proof.
  split.
  - intros H. unfold toggleCompleteTask.
    by rewrite (find_task_absent n (tasks st) H).
  - intros l1 t l2. apply toggleCompleteTask_found.
Qed.

Lemma toggleCompleteTask_flips_one_witness :
  let a := {| id := 1; title := lit "first"; description := []; completed := false |} in
  let b := {| id := 2; title := lit "second"; description := []; completed := true |} in
  toggleCompleteTask (Int 9) (page [a; b] [] []) = page [a; b] [] [] ∧
  tasks (toggleCompleteTask (Int 2) (page [a; b] [] []))
  = [a; {| id := 2; title := lit "second"; description := []; completed := false |}].
Proof.
  intros a b. split.
  - apply (proj1 (toggleCompleteTask_flips_one (page [a; b] [] []) (Int 9))).
    repeat constructor.
  - apply (proj2 (toggleCompleteTask_flips_one (page [a; b] [] []) (Int 2))
             [a] b []); [reflexivity | reflexivity | repeat constructor].
Defined.

(** X2.  Toggling the same identifier twice gives back the task list one
    started from, whether or not a task has that identifier. *)
Theorem toggleCompleteTask_twice (st : State) (n : number) :
  tasks (toggleCompleteTask n (toggleCompleteTask n st)) = tasks st.
Proof.
  destruct (find_task n (tasks st)) as [[k t]|] eqn:Hf.
  - apply find_task_Some in Hf as (l1 & l2 & Hts & _ & Ht & Habs).
    destruct (toggleCompleteTask_found st n l1 l2 t Hts Ht Habs) as [H1 _].
    destruct (toggleCompleteTask_found (toggleCompleteTask n st) n l1 l2
                (toggled t) H1 Ht Habs) as [H2 _].
    by rewrite H2, toggled_toggled.
  - unfold toggleCompleteTask at 2. rewrite Hf.
    unfold toggleCompleteTask. by rewrite Hf.
Qed.

(** X3.  After [deleteTask] no task with the identifier is left, however
    many had it; the tasks that remain are exactly those with another
    identifier; the stored string is the serialization of what remains;
    and deleting the same identifier again changes nothing on the page. *)
Theorem deleteTask_clears_id (st : State) (n : number) :
  absent n (tasks (deleteTask n st)) ∧
  (∀ t, t ∈ tasks (deleteTask n st) ↔
        t ∈ tasks st ∧ strict_eq (id t) n = false) ∧
  deleteTask n (deleteTask n st) = deleteTask n st ∧
  localStorage_tasks (deleteTask n st)
  = Some (JSON_stringify (tasks (deleteTask n st))).
Proof.
  open_state st. unfold deleteTask. nfs.
  assert (absent n (filter (λ t, strict_eq (id t) n = false) ts)) as Habs.
  { apply Forall_forall. intros t Ht. by apply list_elem_of_filter in Ht as [? _]. }
  split_and!; try done.
  - intros t. rewrite list_elem_of_filter. tauto.
  - nfs. by rewrite (filter_absent n _ Habs).
Qed.

End ToggleDelete.

(** ** What each handler does to the list *)

Section ListEquations.

Lemma addTask_tasks (now : Z) (st : State) :
  tasks (Script.addTask now st) =
  if isValid (taskTitleInput_value st) then tasks st ++ [newTask now st]
  else tasks st.
Proof.
  open_state st. unfold Script.addTask. nfs. destruct (isValid tv); by nfs.
Qed.

Lemma updateTask_tasks (st : State) :
  tasks (Script.updateTask st) =
  if isValid (taskTitleInput_value st) then
    match find_task (parseInt_opt (addTaskButton_editingId st)) (tasks st) with
    | Some (k, t) => <[k := with_form_fields t st]> (tasks st)
    | None => tasks st
    end
  else tasks st.
Proof.
  open_state st. unfold Script.updateTask. nfs. destruct (isValid tv); nfs;
    [|done].
  destruct (find_task _ ts) as [[k t]|]; by nfs.
Qed.

Lemma editTask_tasks (n : number) (st : State) :
  tasks (Script.editTask n st) = tasks st.
Proof.
  open_state st. unfold Script.editTask. st_eval.
  destruct (find_task n ts) as [[k t]|]; by nfs.
Qed.

Lemma toggleCompleteTask_tasks (n : number) (st : State) :
  tasks (toggleCompleteTask n st) =
  match find_task n (tasks st) with
  | Some (k, t) => <[k := toggled t]> (tasks st)
  | None => tasks st
  end.
Proof.
  open_state st. unfold toggleCompleteTask. st_eval.
  destruct (find_task n ts) as [[k t]|]; by nfs.
Qed.

Lemma deleteTask_tasks (n : number) (st : State) :
  tasks (deleteTask n st) = filter (λ t, strict_eq (id t) n = false) (tasks st).
Proof. open_state st. unfold deleteTask. by nfs. Qed.

Lemma ids_insert_same (ts : list Task) (k : nat) (t t' : Task) :
  ts !! k = Some t → id t' = id t → map id (<[k := t']> ts) = map id ts.
Proof.
  intros Hk Hid. change (map id ?l) with (id <$> l).
  rewrite list_fmap_insert, Hid. apply list_insert_id.
  by rewrite list_lookup_fmap, Hk.
Qed.

Lemma find_task_lookup (n : number) (ts : list Task) (k : nat) (t : Task) :
  find_task n ts = Some (k, t) → ts !! k = Some t ∧ strict_eq (id t) n = true.
Proof. intros H. apply list_find_Some in H as (? & ? & _). done. Qed.

Lemma ids_filter_NoDup (n : number) (ts : list Task) :
  NoDup (map id ts) →
  NoDup (map id (filter (λ t, strict_eq (id t) n = false) ts)).
Proof.
  induction ts as [|t ts IH]; [done|]. cbn [map].
  intros Hnd. apply NoDup_cons in Hnd as [Hnotin Hnd].
  rewrite filter_cons. destruct (decide _); [|by apply IH].
  cbn [map]. apply NoDup_cons. split; [|by apply IH].
  intros Hin. apply Hnotin.
  change (map id ?l) with (id <$> l) in *.
  apply list_elem_of_fmap in Hin as (y & Hy & Hin).
  apply list_elem_of_filter in Hin as [_ Hin].
  apply list_elem_of_fmap. eauto.
Qed.

End ListEquations.

(** ** Identifiers *)

Section Identifiers.

Lemma submit_single (l : Listener) (now : Z) (st : State) :
  taskForm_submit st = [l] → Script.submit now st = Script.call l now st.
Proof.
  intros H. unfold Script.submit. rewrite H. cbn [foldl].
  by rewrite decide_True by (rewrite H; apply list_elem_of_here).
Qed.

Lemma updateTask_ids (st : State) :
  map id (tasks (Script.updateTask st)) = map id (tasks st).
Proof.
  rewrite updateTask_tasks. destruct (isValid _); [|done].
  destruct (find_task _ _) as [[k t]|] eqn:Hf; [|done].
  apply find_task_lookup in Hf as [Hk _].
  by apply (ids_insert_same _ k t).
Qed.

Lemma toggleCompleteTask_ids (n : number) (st : State) :
  map id (tasks (toggleCompleteTask n st)) = map id (tasks st).
Proof.
  rewrite toggleCompleteTask_tasks.
  destruct (find_task _ _) as [[k t]|] eqn:Hf; [|done].
  apply find_task_lookup in Hf as [Hk _].
  by apply (ids_insert_same _ k t).
Qed.

Lemma field_events_tasks (e : Event) (st : State) :
  match e with Submit _ | Click _ _ _ => True
          | _ => tasks (Script.step e st) = tasks st end.
Proof.
  destruct e; try done; cbn [Script.step]; open_state st.
  - unfold onTitleInput. st_eval.
    destruct (0 <? length (trim v))%nat; [|destruct (negb dirty)]; by nfs.
  - unfold onTitleBlur. by nfs.
  - by nfs.
Qed.

Lemma step_ids_unique (e : Event) (st : State) :
  bound st →
  NoDup (map id (tasks st)) →
  (∀ now, e = Submit now → now ∉ map id (tasks st)) →
  NoDup (map id (tasks (Script.step e st))) ∧
  (∀ i, i ∈ map id (tasks (Script.step e st)) →
        i ∈ map id (tasks st) ∨ e = Submit i).
Proof.
  intros Hb Hnd Hfresh.
  pose proof (field_events_tasks e st) as Hfield.
  destruct e as [v|v| | |now|b i ok]; try (rewrite Hfield; by auto).
  - cbn [Script.step].
    destruct Hb as [Hb|Hb]; rewrite (submit_single _ now st Hb);
      cbn [Script.call].
    + rewrite addTask_tasks. destruct (isValid _); [|by auto].
      change (map id ?l) with (id <$> l) in *.
      rewrite fmap_app. cbn [fmap list_fmap newTask id].
      split.
      * apply NoDup_app. split_and!; [done| |apply NoDup_singleton].
        intros x Hx Hx'. apply list_elem_of_singleton in Hx' as ->.
        by apply (Hfresh now).
      * intros j Hj. apply elem_of_app in Hj as [Hj|Hj]; [by left|].
        apply list_elem_of_singleton in Hj as ->. by right.
    + rewrite updateTask_ids. by auto.
  - cbn [Script.step]. unfold Script.onTableClick.
    destruct (tasksTableBody st !! i) as [[t|]|]; try by auto.
    destruct b.
    + rewrite editTask_tasks. by auto.
    + destruct ok; [|by auto]. rewrite deleteTask_tasks.
      split; [by apply ids_filter_NoDup|].
      intros j Hj. left.
      change (map id ?l) with (id <$> l) in *.
      apply list_elem_of_fmap in Hj as (y & -> & Hy).
      apply list_elem_of_filter in Hy as [_ Hy].
      apply list_elem_of_fmap. eauto.
    + rewrite toggleCompleteTask_ids. by auto.
Qed.

(** X4.  One event on a page with one submit listener and pairwise
    distinct identifiers: unless it is a submission whose clock reading is
    already an identifier of the list, the identifiers are pairwise
    distinct afterwards, and the only identifier that can be new is the
    clock reading of a submission. *)
Theorem ids_stay_unique (e : Event) (st : State) :
  bound st →
  NoDup (map id (tasks st)) →
  (∀ now, e = Submit now → now ∉ map id (tasks st)) →
  NoDup (map id (tasks (Script.step e st))) ∧
  (∀ i, i ∈ map id (tasks (Script.step e st)) →
        i ∈ map id (tasks st) ∨ e = Submit i).
Proof. apply step_ids_unique. Qed.

Lemma ids_stay_unique_witness :
  let a := {| id := 1; title := lit "first task"; description := []; completed := false |} in
  let st := page [a] (lit "second task") [] in
  NoDup (map id (tasks (Script.step (Submit 2) st))) ∧
  (∀ i, i ∈ map id (tasks (Script.step (Submit 2) st)) →
        i ∈ map id (tasks st) ∨ Submit 2 = Submit i).
Proof.
  intros a st. apply (ids_stay_unique (Submit 2) st).
  - left. reflexivity.
  - apply (bool_decide_unpack _). reflexivity.
  - intros now [= <-]. apply (bool_decide_unpack _). reflexivity.
Defined.

End Identifiers.




(** ** Identifiers stay safe integers *)

Section SafeIdentifiers.

Lemma safe_ids_map (ts : list Task) :
  safe_ids ts ↔ Forall safe_integer (map id ts).
Proof.
  unfold safe_ids. change (map id ts) with (id <$> ts).
  symmetry. apply Forall_fmap.
Qed.

Lemma safe_ids_filter (n : number) (ts : list Task) :
  safe_ids ts → safe_ids (filter (λ t, strict_eq (id t) n = false) ts).
Proof.
  unfold safe_ids. rewrite !Forall_forall. intros H t Ht.
  apply list_elem_of_filter in Ht as [_ Ht]. by apply H.
Qed.

Lemma call_safe_ids (l : Listener) (now : Z) (st : State) :
  safe_integer now → safe_ids (tasks st) →
  safe_ids (tasks (Script.call l now st)).
Proof.
  intros Hnow Hs. destruct l; cbn [Script.call].
  - rewrite addTask_tasks. destruct (isValid _); [|done].
    apply Forall_app. split; [done|]. by apply Forall_singleton.
  - apply safe_ids_map. rewrite updateTask_ids. by apply safe_ids_map.
Qed.

Lemma step_safe_ids (e : Event) (st : State) :
  safe_clock e → safe_ids (tasks st) → safe_ids (tasks (Script.step e st)).
Proof.
  intros He Hs. pose proof (field_events_tasks e st) as Hfield.
  destruct e as [v|v| | |now|b i ok]; try (by rewrite Hfield).
  - cbn [Script.step]. unfold Script.submit.
    generalize (taskForm_submit st). intros ls. revert st Hs Hfield.
    induction ls as [|l ls IH]; intros st Hs _; [done|].
    cbn [foldl]. apply IH; [|done].
    destruct (decide _); [by apply call_safe_ids|done].
  - cbn [Script.step]. unfold Script.onTableClick.
    destruct (tasksTableBody st !! i) as [[t|]|]; try done.
    destruct b.
    + by rewrite editTask_tasks.
    + destruct ok; [|done]. rewrite deleteTask_tasks.
      by apply safe_ids_filter.
    + apply safe_ids_map. rewrite toggleCompleteTask_ids.
      by apply safe_ids_map.
Qed.

Lemma run_safe_ids (es : list Event) (st : State) :
  Forall safe_clock es → safe_ids (tasks st) →
  safe_ids (tasks (Script.run es st)).
Proof.
  unfold Script.run. intros Hes. revert st.
  induction Hes as [|e es He _ IH]; intros st Hs; [done|].
  cbn [foldl]. apply IH. by apply step_safe_ids.
Qed.

End SafeIdentifiers.

(** C5.  Start the page from a stored value it loads as a list of tasks
    whose identifiers are safe integers, and let the user do anything
    (typing, submitting, editing, deleting, toggling) in any order, every
    submission reading a clock that is a safe integer, as [Date.now()]
    always is.  The identifiers of the list are still safe integers, and
    starting the page again from the string then found in storage yields
    exactly the task list the first page ended with: the same records in
    the same order. *)
Theorem stored_list_reloads
  (stored : option jsstr) (st0 : State) (es : list Event) :
  Script.init stored = Normal st0 →
  safe_ids (tasks st0) →
  Forall safe_clock es →
  safe_ids (tasks (Script.run es st0)) ∧
  ∃ st',
    Script.init (localStorage_tasks (Script.run es st0)) = Normal st' ∧
    tasks st' = tasks (Script.run es st0).
Proof.
  intros Hinit Hs Hes. split; [by apply run_safe_ids|].
  destruct (run_persists es st0) as [[Ht Hst]|Hst].
  - rewrite Hst, Ht, (init_storage _ _ Hinit). eauto.
  - rewrite Hst. apply init_after_save.
Qed.

(** The scenario of §8, start to finish, on an empty store. *)
Lemma stored_list_reloads_witness :
  let es := [TitleInput (lit "Buy groceries"); DescriptionInput (lit "milk, eggs");
             Submit 1750000000000; Click CompleteButton 0 false;
             Click EditButton 0 false;
             TitleInput (lit "Buy groceries today");
             DescriptionInput (lit "milk, eggs, bread");
             Submit 1750000060000] in
  ∃ st0,
    Script.init None = Normal st0 ∧
    safe_ids (tasks (Script.run es st0)) ∧
    ∃ st',
      Script.init (localStorage_tasks (Script.run es st0)) = Normal st' ∧
      tasks st' = tasks (Script.run es st0).
Proof.
  intros es. eexists. split; [reflexivity|].
  apply (stored_list_reloads None _ es).
  - reflexivity.
  - constructor.
  - repeat constructor; unfold safe_integer; lia.
Defined.

(** ** What stays true of every page *)

Section Invariants.

Lemma isValid_nil : isValid [] = false.
Proof. done. Qed.

Lemma none_not_block : lit "none" ≠ lit "block".
Proof. done. Qed.

Lemma validateTitle_form_ok (st : State) : form_ok (validateTitle st).1.
Proof.
  open_state st. unfold form_ok. nfs. split; [done|].
  destruct dirty, (isValid tv); cbn [andb negb]; try done;
    intros H; by destruct none_not_block.
Qed.

Ltac inv_open st H :=
  unfold consistent, rendered, form_ok, controller_ok in *;
  revert H; open_state st; intros (Hr & (Hd & He) & Hc).

Lemma addTask_consistent (now : Z) (st : State) :
  consistent st → consistent (Script.addTask now st).
Proof.
  intros H. inv_open st H. unfold Script.addTask. nfs.
  destruct (isValid tv) eqn:Hv; nfs; rewrite ?Hv, ?isValid_nil; nfs.
  - by split_and!.
  - by split_and!.
Qed.

Lemma editTask_consistent (n : number) (st : State) :
  consistent st → consistent (Script.editTask n st).
Proof.
  intros H. inv_open st H. unfold Script.editTask. st_eval.
  destruct (find_task n ts) as [[k t]|] eqn:Hf; [|done]. nfs.
  apply find_task_lookup in Hf as [_ Hn].
  destruct n as [|z]; [done|]. apply strict_eq_Int in Hn as <-.
  split_and!; try done.
  - by destruct (isValid (title t)).
  - right. destruct Hc as [(-> & _)|(-> & _)]; split_and!; eauto.
Qed.

Lemma updateTask_consistent (st : State) :
  consistent st → consistent (Script.updateTask st).
Proof.
  intros H. inv_open st H. unfold Script.updateTask. nfs.
  destruct (isValid tv) eqn:Hv; nfs; rewrite ?Hv; nfs; [|by split_and!].
  destruct (find_task _ ts) as [[k t]|] eqn:Hf; nfs;
    rewrite ?Hv, ?isValid_nil; nfs.
  - split_and!; try done.
    left. destruct Hc as [(-> & _)|(-> & _)]; by split_and!.
  - by split_and!.
Qed.

Lemma deleteTask_consistent (n : number) (st : State) :
  consistent st → consistent (deleteTask n st).
Proof.
  intros H. inv_open st H. unfold deleteTask. nfs. by split_and!.
Qed.

Lemma toggleCompleteTask_consistent (n : number) (st : State) :
  consistent st → consistent (toggleCompleteTask n st).
Proof.
  intros H. inv_open st H. unfold toggleCompleteTask. st_eval.
  destruct (find_task n ts) as [[k t]|]; nfs; by split_and!.
Qed.

Lemma submit_consistent (now : Z) (st : State) :
  consistent st → consistent (Script.submit now st).
Proof.
  intros H.
  assert (bound st) as [Hb|Hb].
  { destruct H as (_ & _ & [(? & _)|(? & _)]); [by left|by right]. }
  - rewrite (submit_single _ now st Hb). by apply addTask_consistent.
  - rewrite (submit_single _ now st Hb). by apply updateTask_consistent.
Qed.

Lemma step_consistent (e : Event) (st : State) :
  consistent st → consistent (Script.step e st).
Proof.
  destruct e as [v|v| | |now|b i ok]; cbn [Script.step]; intros H.
  - inv_open st H. unfold onTitleInput. st_eval.
    destruct (0 <? length (trim v))%nat; [|destruct dirty]; nfs;
      split_and!; try done; by destruct (isValid v).
  - inv_open st H. by split_and!.
  - inv_open st H. unfold onTitleBlur. nfs.
    split_and!; try done. by destruct (isValid tv).
  - inv_open st H. nfs. split_and!; try done.
    destruct (negb dirty && _); [done|]. done.
  - by apply submit_consistent.
  - unfold Script.onTableClick.
    destruct (tasksTableBody st !! i) as [[t|]|]; try done.
    destruct b.
    + by apply editTask_consistent.
    + destruct ok; [by apply deleteTask_consistent|done].
    + by apply toggleCompleteTask_consistent.
Qed.

Lemma init_consistent (stored : option jsstr) (st0 : State) :
  Script.init stored = Normal st0 → consistent st0.
Proof.
  unfold Script.init, loadTasks, Script.blank. nf. st_eval.
  assert (rows_of [] = [NoTasksMessage]) as Hnil by done.
  destruct stored as [[|c s]|]; nfs.
  - intros [= <-]. unfold consistent, rendered, form_ok, controller_ok. nfs.
    split_and!; try done. by left.
  - destruct (JSON_parse (c :: s)) as [v|]; [|done].
    destruct (tasks_of_json v) as [ts'|]; [|done]. nfs.
    intros [= <-]. unfold consistent, rendered, form_ok, controller_ok. nfs.
    split_and!; try done. by left.
  - intros [= <-]. unfold consistent, rendered, form_ok, controller_ok. nfs.
    split_and!; try done. by left.
Qed.

Lemma run_consistent (stored : option jsstr) (st0 : State) (es : list Event) :
  Script.init stored = Normal st0 → consistent (Script.run es st0).
Proof.
  intros Hinit. apply init_consistent in Hinit.
  unfold Script.run. revert st0 Hinit.
  induction es as [|e es IH]; intros st0 H; [done|].
  cbn [foldl]. apply IH. by apply step_consistent.
Qed.

End Invariants.

(** ** Reachable pages *)

(** X6.  On every page reached from start-up the table body shows the
    task list: row [i] is the row of task [i], and the single message row
    stands for the empty list. *)
Theorem table_shows_list
  (stored : option jsstr) (st0 : State) (es : list Event) :
  Script.init stored = Normal st0 →
  let st := Script.run es st0 in
  tasksTableBody st = rows_of (tasks st) ∧
  (∀ i t, tasksTableBody st !! i = Some (TaskRow t) ↔ tasks st !! i = Some t) ∧
  (tasks st = [] ↔ tasksTableBody st = [NoTasksMessage]).
Proof.
  intros Hinit st. destruct (run_consistent stored st0 es Hinit) as (Hr & _).
  fold st in Hr. unfold rendered in Hr. rewrite Hr. split; [done|].
  destruct (tasks st) as [|a ts]; cbn [rows_of].
  - split; [|done]. intros i t. split; [|done].
    intros H. by destruct i.
  - split; [|done]. intros i t.
    change (map TaskRow (a :: ts)) with (TaskRow <$> (a :: ts)).
    rewrite list_lookup_fmap.
    destruct ((a :: ts) !! i); simpl; split; congruence.
Qed.

Lemma table_shows_list_witness :
  ∃ st0, Script.init None = Normal st0 ∧
  let st := Script.run [TitleInput (lit "Buy groceries");
                        Submit 1750000000000] st0 in
  tasksTableBody st = rows_of (tasks st) ∧
  (∀ i t, tasksTableBody st !! i = Some (TaskRow t) ↔ tasks st !! i = Some t) ∧
  (tasks st = [] ↔ tasksTableBody st = [NoTasksMessage]).
Proof.
  eexists. split; [reflexivity|].
  apply (table_shows_list None _ [TitleInput (lit "Buy groceries");
                                  Submit 1750000000000]).
  reflexivity.
Defined.

(** X7.  On every page reached from start-up the button is enabled exactly
    when the title field holds a valid title, and the error label is shown
    only for a touched field with an invalid title. *)
Theorem button_tracks_title
  (stored : option jsstr) (st0 : State) (es : list Event) :
  Script.init stored = Normal st0 →
  let st := Script.run es st0 in
  addTaskButton_disabled st = negb (isValid (taskTitleInput_value st)) ∧
  (titleErrorLabel_display st = lit "block" →
   isTitleInputDirty st = true ∧ isValid (taskTitleInput_value st) = false).
Proof.
  intros Hinit st. by destruct (run_consistent stored st0 es Hinit) as (_ & ? & _).
Qed.

Lemma button_tracks_title_witness :
  ∃ st0, Script.init None = Normal st0 ∧
  let st := Script.run [TitleInput (lit "Hi"); TitleBlur] st0 in
  addTaskButton_disabled st = negb (isValid (taskTitleInput_value st)) ∧
  (titleErrorLabel_display st = lit "block" →
   isTitleInputDirty st = true ∧ isValid (taskTitleInput_value st) = false).
Proof.
  eexists. split; [reflexivity|].
  apply (button_tracks_title None _ [TitleInput (lit "Hi"); TitleBlur]).
  reflexivity.
Defined.

(** X8.  On every page reached from start-up the form is in one of two
    states: bound to [addTask] alone, labelled "Agregar Tarea", carrying no
    identifier; or bound to [updateTask] alone, labelled "Actualizar
    Tarea", carrying the decimal numeral of an identifier. *)
Theorem controller_two_states
  (stored : option jsstr) (st0 : State) (es : list Event) :
  Script.init stored = Normal st0 →
  let st := Script.run es st0 in
  (session st = Some Idle ∧
   taskForm_submit st = [AddTask] ∧
   addTaskButton_textContent st = lit "Agregar Tarea" ∧
   addTaskButton_editingId st = None) ∨
  (∃ i, session st = Some (Editing (Int i)) ∧
        taskForm_submit st = [UpdateTask] ∧
        addTaskButton_textContent st = lit "Actualizar Tarea" ∧
        addTaskButton_editingId st = Some (Number_toString i)).
Proof.
  intros Hinit st.
  destruct (run_consistent stored st0 es Hinit) as (_ & _ & Hc).
  fold st in Hc. unfold session.
  destruct Hc as [(Hl & Ht & He)|(Hl & Ht & i & He)]; rewrite Hl.
  - by left.
  - right. exists i. by rewrite He, parseInt_opt_toString.
Qed.

Lemma controller_two_states_witness :
  ∃ st0, Script.init None = Normal st0 ∧
  let st := Script.run [TitleInput (lit "Buy groceries");
                        Submit 1750000000000;
                        Click EditButton 0 false] st0 in
  (session st = Some Idle ∧
   taskForm_submit st = [AddTask] ∧
   addTaskButton_textContent st = lit "Agregar Tarea" ∧
   addTaskButton_editingId st = None) ∨
  (∃ i, session st = Some (Editing (Int i)) ∧
        taskForm_submit st = [UpdateTask] ∧
        addTaskButton_textContent st = lit "Actualizar Tarea" ∧
        addTaskButton_editingId st = Some (Number_toString i)).
Proof.
  eexists. split; [reflexivity|].
  apply (controller_two_states None _
           [TitleInput (lit "Buy groceries"); Submit 1750000000000;
            Click EditButton 0 false]).
  reflexivity.
Defined.

(** ** A click acts on the task of its row *)




(** ** The form after a handler has run *)

(** X10.  A submission to [addTask] with a valid title clears both fields,
    disables the button, hides the error label, marks the title field
    untouched, redraws the table, and leaves the form bound, labelled
    and tagged as it was. *)
Theorem addTask_resets_form (st : State) (now : Z) :
  isValid (taskTitleInput_value st) = true →
  let st' := Script.addTask now st in
  taskTitleInput_value st' = [] ∧
  taskDescriptionInput_value st' = [] ∧
  addTaskButton_disabled st' = true ∧
  isTitleInputDirty st' = false ∧
  titleErrorLabel_display st' = lit "none" ∧
  tasksTableBody st' = rows_of (tasks st') ∧
  taskForm_submit st' = taskForm_submit st ∧
  addTaskButton_textContent st' = addTaskButton_textContent st ∧
  addTaskButton_editingId st' = addTaskButton_editingId st.
Proof.
  open_state st. intros Hv. unfold Script.addTask. nfs. rewrite Hv. nfs.
  rewrite isValid_nil. by split_and!.
Qed.

Lemma addTask_resets_form_witness :
  let st' := Script.addTask 1750000000000 (page [] (lit "Buy groceries") (lit "milk")) in
  taskTitleInput_value st' = [] ∧
  taskDescriptionInput_value st' = [] ∧
  addTaskButton_disabled st' = true ∧
  isTitleInputDirty st' = false ∧
  titleErrorLabel_display st' = lit "none" ∧
  tasksTableBody st' = rows_of (tasks st') ∧
  taskForm_submit st' = [AddTask] ∧
  addTaskButton_textContent st' = lit "Agregar Tarea" ∧
  addTaskButton_editingId st' = None.
Proof.
  apply (addTask_resets_form (page [] (lit "Buy groceries") (lit "milk"))
           1750000000000).
  reflexivity.
Defined.

(** X11.  A submission to [updateTask] with a valid title that finds its
    task ends the edit session: the form is bound to [addTask] again,
    labelled "Agregar Tarea", carries no identifier, both fields are
    empty, the button is disabled, the error label hidden, and the table
    redrawn. *)
Theorem updateTask_ends_session (st : State) (i : Z) (k : nat) (t : Task) :
  taskForm_submit st = [UpdateTask] →
  addTaskButton_editingId st = Some (Number_toString i) →
  isValid (taskTitleInput_value st) = true →
  find_task (Int i) (tasks st) = Some (k, t) →
  let st' := Script.updateTask st in
  session st' = Some Idle ∧
  addTaskButton_textContent st' = lit "Agregar Tarea" ∧
  addTaskButton_editingId st' = None ∧
  taskTitleInput_value st' = [] ∧
  taskDescriptionInput_value st' = [] ∧
  addTaskButton_disabled st' = true ∧
  isTitleInputDirty st' = false ∧
  titleErrorLabel_display st' = lit "none" ∧
  tasksTableBody st' = rows_of (tasks st') ∧
  localStorage_tasks st' = Some (JSON_stringify (tasks st')).
Proof.
  open_state st. intros -> -> Hv Hf. unfold Script.updateTask. nfs.
  rewrite Hv. nfs. rewrite parseInt_opt_toString, Hf. nfs.
  rewrite isValid_nil. unfold session. nfs. by split_and!.
Qed.

Lemma updateTask_ends_session_witness :
  let b := {| id := 2; title := lit "second task"; description := lit "old"; completed := true |} in
  let st := set_taskForm_submit [UpdateTask]
              (set_addTaskButton_editingId (Some (Number_toString 2))
                 (page [b] (lit "second, edited") (lit "new"))) in
  let st' := Script.updateTask st in
  session st' = Some Idle ∧
  addTaskButton_textContent st' = lit "Agregar Tarea" ∧
  addTaskButton_editingId st' = None ∧
  taskTitleInput_value st' = [] ∧
  taskDescriptionInput_value st' = [] ∧
  addTaskButton_disabled st' = true ∧
  isTitleInputDirty st' = false ∧
  titleErrorLabel_display st' = lit "none" ∧
  tasksTableBody st' = rows_of (tasks st') ∧
  localStorage_tasks st' = Some (JSON_stringify (tasks st')).
Proof.
  intros b st.
  apply (updateTask_ends_session st 2 0 b); reflexivity.
Defined.

(** X12.  [editTask] on an identifier some task has, a safe integer,
    copies the title and description of the first such task into the
    form, which holds them as they are when the title has no line break
    and the description no carriage return; it relabels the button, tags
    it with the identifier, binds the form to [updateTask] alone, and
    validates the copied title: the button is disabled, and the error
    shown, exactly when the stored title is not valid.  List and storage
    are not touched. *)
Theorem editTask_loads_form (st : State) (n : number) (k : nat) (t : Task) :
  bound st →
  find_task n (tasks st) = Some (k, t) →
  safe_integer (id t) →
  single_line (title t) →
  no_carriage_return (description t) →
  let st' := Script.editTask n st in
  taskTitleInput_value st' = title t ∧
  taskDescriptionInput_value st' = description t ∧
  addTaskButton_textContent st' = lit "Actualizar Tarea" ∧
  session st' = Some (Editing (Int (id t))) ∧
  addTaskButton_disabled st' = negb (isValid (title t)) ∧
  titleErrorLabel_display st'
  = (if isValid (title t) then lit "none" else lit "block") ∧
  tasks st' = tasks st ∧
  localStorage_tasks st' = localStorage_tasks st.
Proof.
  unfold bound. open_state st. intros Hb Hf _ _ _.
  unfold Script.editTask. st_eval.
  rewrite Hf. nfs. apply find_task_lookup in Hf as [_ Hn].
  destruct n as [|z]; [done|]. apply strict_eq_Int in Hn as <-.
  unfold session. nfs.
  change (String_of_number (Int (id t))) with (Number_toString (id t)).
  rewrite parseInt_opt_toString.
  split_and!; try done.
  - by destruct Hb as [-> | ->].
  - by destruct (isValid (title t)).
Qed.

Lemma editTask_loads_form_witness :
  let b := {| id := 2; title := lit "Hi"; description := lit "old"; completed := true |} in
  let st' := Script.editTask (Int 2) (page [b] [] []) in
  taskTitleInput_value st' = lit "Hi" ∧
  taskDescriptionInput_value st' = lit "old" ∧
  addTaskButton_textContent st' = lit "Actualizar Tarea" ∧
  session st' = Some (Editing (Int 2)) ∧
  addTaskButton_disabled st' = true ∧
  titleErrorLabel_display st' = lit "block" ∧
  tasks st' = [b] ∧
  localStorage_tasks st' = Some (JSON_stringify [b]).
Proof.
  intros b.
  apply (editTask_loads_form (page [b] [] []) (Int 2) 0 b).
  - left. reflexivity.
  - reflexivity.
  - unfold safe_integer. simpl. lia.
  - apply (bool_decide_unpack _). reflexivity.
  - apply (bool_decide_unpack _). reflexivity.
Defined.

(** ** Saving and loading *)

(** X13.  [loadTasks] run right after [saveTasks] completes normally and
    changes nothing: the list read back is the list in memory. *)
Theorem load_after_save_is_identity (st : State) :
  loadTasks (saveTasks st) = Normal (saveTasks st).
Proof.
  open_state st. unfold loadTasks. st_eval.
  pose proof (JSON_parse_stringify ts) as Hp.
  change (JSON_stringify ts) with (91 :: stringify_elements ts ++ [93]) in *.
  cbv beta iota. by rewrite Hp, tasks_of_json_of_tasks.
Qed.

(** X14.  Two task lists are stored as the same string only when they are
    the same list. *)
Theorem JSON_stringify_injective (ts1 ts2 : list Task) :
  JSON_stringify ts1 = JSON_stringify ts2 → ts1 = ts2.
Proof.
  intros H.
  pose proof (JSON_parse_stringify ts1) as H1.
  rewrite H, JSON_parse_stringify in H1. injection H1 as H1.
  pose proof (tasks_of_json_of_tasks ts1) as H2.
  rewrite <- H1, tasks_of_json_of_tasks in H2. congruence.
Qed.

Lemma JSON_stringify_injective_witness :
  let a := {| id := 1; title := 34 :: lit "quoted" ++ [34; 92];
              description := [10]; completed := false |} in
  [a] = [{| id := 1; title := [34; 113; 117; 111; 116; 101; 100; 34; 92];
            description := [10]; completed := false |}].
Proof.
  intros a. apply (JSON_stringify_injective [a]). reflexivity.
Defined.

(** ** Trimming twice *)

Section TrimTwice.

Lemma trimEnd_fixed (r : jsstr) (c : N) :
  isWhiteSpace c = false → trimEnd (r ++ [c]) = r ++ [c].
Proof.
  intros Hc. unfold trimEnd. rewrite rev_app_distr. cbn [rev app].
  rewrite (trimStart_fixed c (rev r) Hc).
  change (rev (c :: rev r)) with (rev (rev r) ++ [c]).
  by rewrite rev_involutive.
Qed.

Lemma trim_idempotent (s : jsstr) : trim (trim s) = trim s.
Proof.
  destruct (trim_spec s) as (pre & post & _ & _ & _ & Hhead & Hlast).
  destruct (trim s) as [|c r] eqn:Ht; [done|].
  unfold trim. rewrite (trimStart_fixed c r (Hhead c r eq_refl)).
  destruct (exists_last (l := c :: r)) as (r' & c' & Heq); [done|].
  rewrite Heq. apply trimEnd_fixed. by apply (Hlast r' c').
Qed.

Lemma isValid_trim (v : jsstr) : isValid (trim v) = isValid v.
Proof. unfold isValid. by rewrite trim_idempotent. Qed.

End TrimTwice.

(** X15.  A task just created, loaded into the form with [editTask] and
    submitted as it stands, is stored unchanged, and the form is back in
    creation: what [addTask] stores is already trimmed and valid. *)
Theorem create_edit_submit_unchanged (st : State) (now now' : Z) :
  taskForm_submit st = [AddTask] →
  isValid (taskTitleInput_value st) = true →
  absent (Int now) (tasks st) →
  let st1 := Script.addTask now st in
  let st2 := Script.submit now' (Script.editTask (Int now) st1) in
  tasks st1 = tasks st ++ [newTask now st] ∧
  tasks st2 = tasks st1 ∧
  session st2 = Some Idle.
Proof.
  open_state st. intros -> Hv Habs.
  assert (∀ t', id t' = now →
                find_task (Int now) (ts ++ [t']) = Some (length ts, t')) as Hf.
  { intros t' Ht'. apply find_task_first; [done|].
    rewrite <- Ht'. simpl. apply Z.eqb_refl. }
  unfold Script.addTask. nfs. rewrite Hv. nfs.
  split; [done|]. unfold newTask. st_eval.
  unfold Script.editTask. st_eval. rewrite Hf by reflexivity. nfs.
  cbn [title description]. rewrite !isValid_trim, Hv. nfs.
  rewrite (submit_single UpdateTask) by done.
  unfold Script.call, Script.updateTask. nfs.
  cbn [title description]. rewrite !isValid_trim, Hv. nfs.
  change (String_of_number (Int now)) with (Number_toString now).
  rewrite parseInt_opt_toString, Hf by reflexivity. nfs.
  unfold session. nfs. split; [|done].
  unfold with_form_fields. st_eval. cbn [title description id completed].
  rewrite !trim_idempotent. apply insert_middle.
Qed.

Lemma create_edit_submit_unchanged_witness :
  let st := page [] (lit "  Buy groceries ") (lit "milk, eggs ") in
  let st1 := Script.addTask 1750000000000 st in
  let st2 := Script.submit 1750000060000
               (Script.editTask (Int 1750000000000) st1) in
  tasks st1 = tasks st ++ [newTask 1750000000000 st] ∧
  tasks st2 = tasks st1 ∧
  session st2 = Some Idle.
Proof.
  intros st.
  apply (create_edit_submit_unchanged st 1750000000000 1750000060000).
  - reflexivity.
  - reflexivity.
  - constructor.
Defined.

(** ** The two versions of the script *)

(** X16.  Whenever the button's [disabled] flag is the negation of the
    title's validity, [addTask] and [updateTask] of [js/script.js] leave
    the page as those of [script.js] do, up to the dirty flag and the
    error label: same list, same stored string, same form, same table. *)
Theorem versions_agree (st : State) (now : Z) :
  addTaskButton_disabled st = negb (isValid (taskTitleInput_value st)) →
  agree (Split.addTask now st) (Script.addTask now st) ∧
  agree (Split.updateTask st) (Script.updateTask st).
Proof.
  unfold agree. open_state st. intros ->.
  unfold Split.addTask, Script.addTask, Split.updateTask, Script.updateTask.
  nfs. destruct (isValid tv) eqn:Hv; nfs; rewrite ?Hv, ?isValid_nil; nfs.
  - split; [by split_and!|].
    destruct (find_task _ ts) as [[k t]|]; nfs;
      rewrite ?Hv, ?isValid_nil; nfs; by split_and!.
  - by split_and!.
Qed.

Lemma versions_agree_witness :
  let st := page [] (lit "Buy groceries") (lit "milk") in
  agree (Split.addTask 1750000000000 st) (Script.addTask 1750000000000 st) ∧
  agree (Split.updateTask st) (Script.updateTask st).
Proof.
  intros st. apply (versions_agree st 1750000000000). reflexivity.
Defined.

(** ** The listeners of the title field *)

Lemma isValid_blank (v : jsstr) : trim v = [] → isValid v = false.
Proof. intros H. unfold isValid. by rewrite H. Qed.

(** X17.  Leaving the title field marks it touched, and sets the button
    and the error label by the verdict on its value.  Typing does the same
    once the value has a non-blank character; typing only blanks into a
    field never touched before shows no error but disables the button.
    Entering the field changes neither the button nor the value, and never
    brings the error up. *)
Theorem title_listeners (st : State) (v : jsstr) :
  (isTitleInputDirty (onTitleBlur st) = true ∧
   addTaskButton_disabled (onTitleBlur st)
   = negb (isValid (taskTitleInput_value st)) ∧
   titleErrorLabel_display (onTitleBlur st)
   = (if isValid (taskTitleInput_value st) then lit "none" else lit "block")) ∧
  (let st' := onTitleInput (set_taskTitleInput_value v st) in
   addTaskButton_disabled st' = negb (isValid v) ∧
   (trim v ≠ [] →
    isTitleInputDirty st' = true ∧
    titleErrorLabel_display st'
    = (if isValid v then lit "none" else lit "block")) ∧
   (trim v = [] →
    addTaskButton_disabled st' = true ∧
    isTitleInputDirty st' = isTitleInputDirty st ∧
    titleErrorLabel_display st'
    = (if isTitleInputDirty st then lit "block" else lit "none"))) ∧
  (addTaskButton_disabled (onTitleFocus st) = addTaskButton_disabled st ∧
   taskTitleInput_value (onTitleFocus st) = taskTitleInput_value st ∧
   isTitleInputDirty (onTitleFocus st) = isTitleInputDirty st ∧
   (titleErrorLabel_display (onTitleFocus st) = lit "block" →
    titleErrorLabel_display st = lit "block")).
Proof.
  open_state st. unfold onTitleBlur, onTitleInput. nfs. split_and!; try done.
  - by destruct (isValid tv).
  - destruct (0 <? length (trim v))%nat; [|destruct dirty]; by nfs.
  - intros Hne. destruct (trim v) as [|c r] eqn:Ht; [done|]. cbn [length Nat.ltb Nat.leb].
    nfs. split; [done|]. by destruct (isValid v).
  - intros Ht. rewrite Ht. cbn [length Nat.ltb Nat.leb].
    destruct dirty; nfs; by rewrite (isValid_blank v Ht).
  - by destruct (negb dirty && _).
Qed.

Lemma title_listeners_witness :
  let st := page [] [] [] in
  let st' := onTitleInput (set_taskTitleInput_value (lit " Hi ") st) in
  (isTitleInputDirty st' = true ∧
   titleErrorLabel_display st' = lit "block") ∧
  let st'' := onTitleInput (set_taskTitleInput_value (lit "   ")
                              (set_isTitleInputDirty false st)) in
  addTaskButton_disabled st'' = true ∧
  isTitleInputDirty st'' = false ∧
  titleErrorLabel_display st'' = lit "none".
Proof.
  intros st st'. split.
  - apply (proj1 (proj2 (proj1 (proj2 (title_listeners st (lit " Hi ")))))).
    discriminate.
  - intros st''.
    apply (proj2 (proj2 (proj1 (proj2
             (title_listeners (set_isTitleInputDirty false st) (lit "   ")))))).
    reflexivity.
Defined.

(** ** [js/script.js] as a whole *)

Section SplitPage.

Lemma Split_addTask_persists (now : Z) (st : State) :
  persists st (Split.addTask now st).
Proof.
  destruct (addTaskButton_disabled st) eqn:Hd.
  - unfold Split.addTask. rewrite Hd. apply persists_refl.
  - right. apply (Split_addTask_appends st now Hd).
Qed.

Lemma Split_updateTask_persists (st : State) :
  persists st (Split.updateTask st).
Proof.
  open_state st. unfold Split.updateTask. st_eval.
  destruct dis; [by left|].
  destruct (find_task _ ts) as [[k t]|]; nfs; [by right|by left].
Qed.

Lemma Split_editTask_persists (n : number) (st : State) :
  persists st (Split.editTask n st).
Proof.
  open_state st. unfold Split.editTask. st_eval.
  destruct (find_task n ts) as [[k t]|]; nfs; by left.
Qed.

Lemma Split_submit_persists (now : Z) (st : State) :
  persists st (Split.submit now st).
Proof.
  unfold Split.submit. generalize (taskForm_submit st). intros ls.
  revert st. induction ls as [|l ls IH]; intros st; [apply persists_refl|].
  simpl. destruct (decide (l ∈ taskForm_submit st)); [|apply IH].
  eapply persists_trans; [|apply IH].
  destruct l; [apply Split_addTask_persists|apply Split_updateTask_persists].
Qed.

Lemma Split_step_persists (e : Event) (st : State) :
  persists st (Split.step e st).
Proof.
  destruct e; cbn [Split.step].
  - open_state st. unfold onTitleInput. st_eval.
    destruct (0 <? length (trim v))%nat; [|destruct (negb dirty)];
      nfs; by left.
  - open_state st. by left.
  - open_state st. unfold onTitleBlur. nfs. by left.
  - open_state st. nfs. by left.
  - apply Split_submit_persists.
  - unfold Split.onTableClick.
    destruct (tasksTableBody st !! i) as [[t|]|]; try apply persists_refl.
    destruct b;
      [apply Split_editTask_persists| |apply toggleCompleteTask_persists].
    destruct ok; [apply deleteTask_persists|apply persists_refl].
Qed.

Lemma Split_run_persists (es : list Event) (st : State) :
  persists st (Split.run es st).
Proof.
  unfold Split.run. revert st.
  induction es as [|e es IH]; intros st; [apply persists_refl|].
  simpl. eapply persists_trans; [apply Split_step_persists|apply IH].
Qed.

Lemma Split_init_after_save (d : bool) (ts : list Task) :
  ∃ st, Split.init d (Some (JSON_stringify ts)) = Normal st ∧ tasks st = ts.
Proof.
  unfold Split.init, loadTasks, Script.blank. nf. st_eval.
  pose proof (JSON_parse_stringify ts) as Hp.
  change (JSON_stringify ts) with (91 :: stringify_elements ts ++ [93]) in *.
  cbv beta iota. rewrite Hp, tasks_of_json_of_tasks. nfs.
  eexists. split; [reflexivity|]. by st_eval.
Qed.

Lemma Split_init_fields (d : bool) (stored : option jsstr) (st : State) :
  Split.init d stored = Normal st →
  localStorage_tasks st = stored ∧
  tasksTableBody st = rows_of (tasks st) ∧
  taskForm_submit st = [AddTask] ∧
  addTaskButton_textContent st = lit "Agregar Tarea" ∧
  addTaskButton_editingId st = None.
Proof.
  unfold Split.init, loadTasks, Script.blank. nf. st_eval.
  destruct stored as [[|c s]|]; nfs.
  - by intros [= <-].
  - destruct (JSON_parse (c :: s)) as [v|]; [|done].
    destruct (tasks_of_json v); [|done]. nfs. by intros [= <-].
  - by intros [= <-].
Qed.

Lemma Split_init_tasks (d d' : bool) (stored : option jsstr) (st : State) :
  Split.init d stored = Normal st →
  ∃ st', Split.init d' stored = Normal st' ∧ tasks st' = tasks st.
Proof.
  unfold Split.init, loadTasks, Script.blank. nf. st_eval.
  destruct stored as [[|c s]|]; nfs.
  - intros [= <-]. eauto.
  - destruct (JSON_parse (c :: s)) as [v|]; [|done].
    destruct (tasks_of_json v); [|done]. nfs. intros [= <-]. eauto.
  - intros [= <-]. eauto.
Qed.

Lemma Split_step_consistent (e : Event) (st : State) :
  Split_consistent st → Split_consistent (Split.step e st).
Proof.
  unfold Split_consistent, rendered, controller_ok.
  destruct e as [v|v| | |now|b i ok]; cbn [Split.step]; intros H.
  - revert H. open_state st. unfold onTitleInput. st_eval.
    destruct (0 <? length (trim v))%nat; [|destruct dirty]; by nfs.
  - revert H. by open_state st.
  - revert H. open_state st. unfold onTitleBlur. by nfs.
  - revert H. open_state st. by nfs.
  - assert (bound st) as [Hb|Hb].
    { destruct H as (_ & [(? & _)|(? & _)]); [by left|by right]. }
    + unfold Split.submit. rewrite Hb. cbn [foldl].
      rewrite decide_True by (rewrite Hb; apply list_elem_of_here).
      cbn [Split.call]. revert H. open_state st. unfold Split.addTask.
      st_eval. destruct dis; nfs; [done|]. by intros (_ & ?).
    + unfold Split.submit. rewrite Hb. cbn [foldl].
      rewrite decide_True by (rewrite Hb; apply list_elem_of_here).
      cbn [Split.call]. revert H Hb. open_state st. unfold Split.updateTask.
      st_eval. destruct dis; nfs; [done|].
      destruct (find_task _ ts) as [[k t]|]; nfs; [|done].
      intros (_ & _) ->. split; [done|]. by left.
  - unfold Split.onTableClick.
    destruct (tasksTableBody st !! i) as [[t|]|]; try done.
    destruct b.
    + revert H. open_state st. unfold Split.editTask. st_eval.
      generalize (parseInt_opt (row_dataset_id (TaskRow t))). intros n.
      destruct (find_task n ts) as [[k t']|] eqn:Hf; [|done]. nfs.
      apply find_task_lookup in Hf as [_ Hn].
      destruct n as [|z]; [done|].
      intros (Hr & Hc). split; [done|]. right.
      destruct Hc as [(-> & _)|(-> & _)]; split_and!; eauto.
    + destruct ok; [|done]. revert H. open_state st. unfold deleteTask.
      nfs. by intros (_ & ?).
    + revert H. open_state st. unfold toggleCompleteTask. st_eval.
      destruct (find_task _ ts) as [[k t']|]; nfs; [|done].
      by intros (_ & ?).
Qed.

Lemma Split_run_consistent (d : bool) (stored : option jsstr) (st0 : State)
      (es : list Event) :
  Split.init d stored = Normal st0 → Split_consistent (Split.run es st0).
Proof.
  intros Hinit.
  assert (Split_consistent st0) as H0.
  { apply Split_init_fields in Hinit as (_ & ? & ? & ? & ?).
    split; [done|]. by left. }
  clear Hinit. unfold Split.run. revert st0 H0.
  induction es as [|e es IH]; intros st0 H0; [done|].
  cbn [foldl]. apply IH. by apply Split_step_consistent.
Qed.

End SplitPage.

Section SplitSafeIdentifiers.

Lemma Split_call_safe_ids (l : Listener) (now : Z) (st : State) :
  safe_integer now → safe_ids (tasks st) →
  safe_ids (tasks (Split.call l now st)).
Proof.
  intros Hnow. open_state st. intros Hs.
  destruct l; cbn [Split.call].
  - unfold Split.addTask. st_eval. destruct dis; nfs; [done|].
    apply Forall_app. split; [done|]. by apply Forall_singleton.
  - unfold Split.updateTask. st_eval. destruct dis; nfs; [done|].
    destruct (find_task _ ts) as [[k t]|] eqn:Hf; nfs; [|done].
    apply find_task_lookup in Hf as [Hk _].
    apply Forall_insert; [done|]. cbn [id].
    by apply (proj1 (Forall_lookup _ _) Hs k t).
Qed.

Lemma Split_step_safe_ids (e : Event) (st : State) :
  safe_clock e → safe_ids (tasks st) → safe_ids (tasks (Split.step e st)).
Proof.
  intros He Hs.
  destruct e as [v|v| | |now|b i ok]; cbn [Split.step].
  - revert Hs. open_state st. unfold onTitleInput. st_eval.
    destruct (0 <? length (trim v))%nat; [|destruct (negb dirty)]; by nfs.
  - revert Hs. by open_state st.
  - revert Hs. open_state st. unfold onTitleBlur. by nfs.
  - revert Hs. open_state st. by nfs.
  - unfold Split.submit.
    generalize (taskForm_submit st). intros ls. revert st Hs.
    induction ls as [|l ls IH]; intros st Hs; [done|].
    cbn [foldl]. apply IH.
    destruct (decide _); [by apply Split_call_safe_ids|done].
  - unfold Split.onTableClick.
    destruct (tasksTableBody st !! i) as [[t|]|]; try done.
    destruct b.
    + revert Hs. open_state st. unfold Split.editTask. st_eval.
      destruct (find_task _ ts) as [[k t']|]; by nfs.
    + destruct ok; [|done]. rewrite deleteTask_tasks.
      by apply safe_ids_filter.
    + apply safe_ids_map. rewrite toggleCompleteTask_ids.
      by apply safe_ids_map.
Qed.

Lemma Split_run_safe_ids (es : list Event) (st : State) :
  Forall safe_clock es → safe_ids (tasks st) →
  safe_ids (tasks (Split.run es st)).
Proof.
  unfold Split.run. intros Hes. revert st.
  induction Hes as [|e es He _ IH]; intros st Hs; [done|].
  cbn [foldl]. apply IH. by apply Split_step_safe_ids.
Qed.

End SplitSafeIdentifiers.

(** X18.  The round trip of [js/script.js]: start the page from a stored
    value it loads as a list of tasks whose identifiers are safe integers,
    let the user do anything, every submission reading a clock that is a
    safe integer; the identifiers are still safe integers, and starting
    the page again from the string then in storage, whatever the markup's
    button state, yields exactly the final task list. *)
Theorem Split_stored_list_reloads
  (d d' : bool) (stored : option jsstr) (st0 : State) (es : list Event) :
  Split.init d stored = Normal st0 →
  safe_ids (tasks st0) →
  Forall safe_clock es →
  safe_ids (tasks (Split.run es st0)) ∧
  ∃ st',
    Split.init d' (localStorage_tasks (Split.run es st0)) = Normal st' ∧
    tasks st' = tasks (Split.run es st0).
Proof.
  intros Hinit Hs Hes. split; [by apply Split_run_safe_ids|].
  destruct (Split_run_persists es st0) as [[Ht Hst]|Hst].
  - rewrite Hst, Ht.
    destruct (Split_init_fields _ _ _ Hinit) as [-> _].
    by apply (Split_init_tasks d d').
  - rewrite Hst. apply Split_init_after_save.
Qed.

Lemma Split_stored_list_reloads_witness :
  let es := [TitleInput (lit "Buy groceries"); Submit 1750000000000;
             Click CompleteButton 0 false] in
  ∃ st0,
    Split.init false None = Normal st0 ∧
    safe_ids (tasks (Split.run es st0)) ∧
    ∃ st',
      Split.init true (localStorage_tasks (Split.run es st0)) = Normal st' ∧
      tasks st' = tasks (Split.run es st0).
Proof.
  intros es. eexists. split; [reflexivity|].
  apply (Split_stored_list_reloads false true None _ es).
  - reflexivity.
  - constructor.
  - repeat constructor; unfold safe_integer; lia.
Defined.

(** X19.  In [js/script.js] too, every page reached from start-up shows
    the list in its table and has its form in one of the two states:
    [addTask] with "Agregar Tarea" and no identifier, or [updateTask] with
    "Actualizar Tarea" and the numeral of an identifier. *)
Theorem Split_table_and_controller
  (d : bool) (stored : option jsstr) (st0 : State) (es : list Event) :
  Split.init d stored = Normal st0 →
  let st := Split.run es st0 in
  tasksTableBody st = rows_of (tasks st) ∧
  ((taskForm_submit st = [AddTask] ∧
    addTaskButton_textContent st = lit "Agregar Tarea" ∧
    addTaskButton_editingId st = None) ∨
   (taskForm_submit st = [UpdateTask] ∧
    addTaskButton_textContent st = lit "Actualizar Tarea" ∧
    ∃ i, addTaskButton_editingId st = Some (Number_toString i))).
Proof. intros Hinit. apply (Split_run_consistent d stored st0 es Hinit). Qed.

Lemma Split_table_and_controller_witness :
  ∃ st0, Split.init false None = Normal st0 ∧
  let st := Split.run [TitleInput (lit "Buy groceries");
                       Submit 1750000000000;
                       Click EditButton 0 false] st0 in
  tasksTableBody st = rows_of (tasks st) ∧
  ((taskForm_submit st = [AddTask] ∧
    addTaskButton_textContent st = lit "Agregar Tarea" ∧
    addTaskButton_editingId st = None) ∨
   (taskForm_submit st = [UpdateTask] ∧
    addTaskButton_textContent st = lit "Actualizar Tarea" ∧
    ∃ i, addTaskButton_editingId st = Some (Number_toString i))).
Proof.
  eexists. split; [reflexivity|].
  apply (Split_table_and_controller false None _
           [TitleInput (lit "Buy groceries"); Submit 1750000000000;
            Click EditButton 0 false]).
  reflexivity.
Defined.

Lemma editTask_found_listeners (st : State) (n : number) (k : nat) (t : Task) :
  bound st →
  find_task n (tasks st) = Some (k, t) →
  taskForm_submit (Script.editTask n st) = [UpdateTask] ∧
  taskForm_submit (Split.editTask n st) = [UpdateTask].
Proof.
  unfold bound. open_state st. intros Hb Hf.
  unfold Script.editTask, Split.editTask. st_eval. rewrite Hf. nfs.
  by destruct Hb as [-> | ->].
Qed.

Lemma Split_submit_single (l : Listener) (now : Z) (st : State) :
  taskForm_submit st = [l] → Split.submit now st = Split.call l now st.
Proof.
  intros H. unfold Split.submit. rewrite H. cbn [foldl].
  by rewrite decide_True by (rewrite H; apply list_elem_of_here).
Qed.

(** X20.  Beginning to edit and submitting at once, on a task whose
    identifier is a safe integer and whose title and description are
    strings the fields keep as assigned.  In [js/script.js] [editTask]
    leaves the button as it was, so with the button enabled the
    submission stores the task's own title and description, trimmed,
    whether or not that title is valid.  In [script.js] [editTask]
    validates the title it loads, and a task whose stored title is invalid
    is left as it is. *)
Theorem edit_then_submit (st : State) (j : nat) (b : Task) (now : Z) :
  bound st →
  NoDup (map id (tasks st)) →
  tasks st !! j = Some b →
  safe_integer (id b) →
  single_line (title b) →
  no_carriage_return (description b) →
  (addTaskButton_disabled st = false →
   tasks (Split.submit now (Split.editTask (Int (id b)) st))
   = <[j := {| id := id b; title := trim (title b);
               description := trim (description b);
               completed := completed b |}]> (tasks st)) ∧
  (isValid (title b) = false →
   tasks (Script.submit now (Script.editTask (Int (id b)) st)) = tasks st).
Proof.
  intros Hb Hnd Hj _ _ _.
  pose proof (find_task_unique _ j b Hnd Hj) as Hf.
  destruct (editTask_found_listeners st _ j b Hb Hf) as [Hl1 Hl2].
  rewrite (submit_single UpdateTask now _ Hl1).
  rewrite (Split_submit_single UpdateTask now _ Hl2).
  clear Hl1 Hl2 Hb. revert Hf. open_state st. intros Hf.
  unfold Script.call, Split.call, Script.editTask, Split.editTask. st_eval.
  rewrite Hf. split.
  - intros ->. unfold Split.updateTask. nfs.
    change (String_of_number (Int (id b))) with (Number_toString (id b)).
    rewrite parseInt_opt_toString, Hf. by nfs.
  - intros Hv. unfold Script.updateTask. nfs. rewrite Hv. by nfs.
Qed.

Lemma edit_then_submit_witness :
  let b := {| id := 2; title := lit " Hi "; description := lit "note ";
              completed := true |} in
  let st := page [b] (lit "Buy groceries") [] in
  tasks (Split.submit 1750000000000 (Split.editTask (Int 2) st))
  = [{| id := 2; title := lit "Hi"; description := lit "note";
        completed := true |}] ∧
  tasks (Script.submit 1750000000000 (Script.editTask (Int 2) st)) = [b].
Proof.
  intros b st.
  assert (bound st) as Hb by (left; reflexivity).
  assert (NoDup (map id (tasks st))) as Hnd
      by (apply (bool_decide_unpack _); reflexivity).
  assert (safe_integer (id b)) as Hid by (unfold safe_integer; simpl; lia).
  assert (single_line (title b)) as Ht
      by (apply (bool_decide_unpack _); reflexivity).
  assert (no_carriage_return (description b)) as Hd
      by (apply (bool_decide_unpack _); reflexivity).
  split.
  - apply (proj1 (edit_then_submit st 0 b 1750000000000 Hb Hnd eq_refl
                    Hid Ht Hd)).
    reflexivity.
  - apply (proj2 (edit_then_submit st 0 b 1750000000000 Hb Hnd eq_refl
                    Hid Ht Hd)).
    reflexivity.
Defined.
